(** * salobj: a shallow embedding of the command/acknowledgment engine

    The development follows the Python sources module by module:

    - [BaseCsc]   : [salobj/base_csc.py], the summary-state machine of a
                    commandable SAL component and its transition hooks;
    - [Base]      : [lsst/ts/salobj/base.py], [index_generator] and
                    [name_to_name_index] (with the regular expression
                    [_NAME_REGEX] interpreted by a backtracking matcher);
    - [SalInfo]   : [lsst/ts/salobj/sal_info.py], [makeAckCmd],
                    [_ackcmd_callback], [close] and the late-joiner part of
                    [start].

    The facts about each module follow the definitions, in [BaseCscFacts],
    [BaseFacts] and [SalInfoFacts].

    Python integers are unbounded and are modelled by [Z]; Python strings are
    lists of 8-bit characters; a [dict] is an insertion-ordered association
    list; objects that several owners share live in a store. Code that is
    imported from modules outside these sources is a parameter, or a
    definition whose comment says what it is modelled from. *)

From Stdlib Require Import List ZArith NArith String Ascii Bool Lia.
Import ListNotations.

Set Implicit Arguments.

(* ================================================================== *)
(** * The component state machine ([salobj/base_csc.py])               *)
(* ================================================================== *)

Module BaseCsc.

(** [class State(enum.IntEnum)] *)
Inductive State : Type := OFFLINE | STANDBY | DISABLED | ENABLED | FAULT.

(** The numeric value of each member of the [IntEnum]. *)
Definition State_value (s : State) : Z :=
  match s with
  | OFFLINE => 4
  | STANDBY => 5
  | DISABLED => 1
  | ENABLED => 2
  | FAULT => 3
  end.

(** [==] on an [IntEnum] compares the numeric values. *)
Definition State_eqb (a b : State) : bool := (State_value a =? State_value b)%Z.

(** [x in allowed], for a Python list of states. *)
Definition State_in (x : State) (l : list State) : bool := existsb (State_eqb x) l.

(** The commands that [BaseCsc] implements with [_do_change_state];
    [cmd_name] in the source is one of these six strings. *)
Inductive CmdName : Type :=
  start | enable | disable | standby | enterControl | exitControl.

(** [salobj.CommandIdData]: a command identifier and the command's payload. *)
Record CommandIdData (D : Type) : Type := mkIdData { cmd_id : Z; data : D }.

(** Exceptions seen by the state machine: [utils.ExpectedError] raised by
    [_do_change_state] (its message is built from the command name and the
    current state), or whatever a hook of a subclass raises. *)
Inductive exn : Type :=
| ExpectedError (cmd_name : CmdName) (curr : State)
| HookError (msg : string).

Section Csc.

(** Attributes added by a subclass, and command payloads. *)
Variables U D : Type.

(** The attributes of a [BaseCsc] instance that the state machine touches.
    [evt_summaryState] is the sequence of [summaryState] values handed to
    [controller.evt_summaryState.put], oldest first; [die_scheduled] records
    that [do_exitControl] has scheduled the coroutine that closes the event
    loop. *)
Record Csc : Type := mkCsc {
  state : State;
  summary_state : Z;
  evt_summaryState : list Z;
  die_scheduled : bool;
  user : U
}.

Definition set_state (self : Csc) (s : State) : Csc :=
  mkCsc s (summary_state self) (evt_summaryState self) (die_scheduled self) (user self).

(** How a method call ends: normally, or with an exception; in both cases the
    mutations made so far on [self] persist. *)
Inductive Outcome : Type :=
| Return (self : Csc)
| Raise (e : exn) (self : Csc).

Definition self_of (o : Outcome) : Csc :=
  match o with Return s => s | Raise _ s => s end.

(** A [begin_<name>] or [end_<name>] method: any code over [self]. *)
Definition Hook : Type := CommandIdData D -> Csc -> Outcome.

(** The [begin_<name>] and [end_<name>] methods of the class at hand. *)
Variables begin_ end_ : CmdName -> Hook.

(** [set_summary_state]: [self.summary_state.summaryState = self.state] *)
Definition set_summary_state (self : Csc) : Csc :=
  mkCsc (state self) (State_value (state self)) (evt_summaryState self)
        (die_scheduled self) (user self).

(** [report_summary_state] *)
Definition report_summary_state (self : Csc) : Csc :=
  let self := set_summary_state self in
  mkCsc (state self) (summary_state self)
        (evt_summaryState self ++ [summary_state self])
        (die_scheduled self) (user self).

(** [fault]: enter the fault state. *)
Definition fault (self : Csc) : Csc :=
  report_summary_state (set_state self FAULT).

(** [_do_change_state] *)
Definition _do_change_state (id_data : CommandIdData D) (cmd_name : CmdName)
    (allowed_curr_states : list State) (new_state : State) (self : Csc) : Outcome :=
  let curr_state := state self in
  if negb (State_in (state self) allowed_curr_states) then
    Raise (ExpectedError cmd_name (state self)) self
  else
    match begin_ cmd_name id_data self with
    | Raise e self => Raise e self
    | Return self =>
        let self := set_state self new_state in
        match end_ cmd_name id_data self with
        | Raise e self => Raise e (set_state self curr_state)
        | Return self => Return (report_summary_state self)
        end
    end.

Definition do_disable (id_data : CommandIdData D) : Csc -> Outcome :=
  _do_change_state id_data disable [ENABLED] DISABLED.

Definition do_enable (id_data : CommandIdData D) : Csc -> Outcome :=
  _do_change_state id_data enable [DISABLED] ENABLED.

Definition do_enterControl (id_data : CommandIdData D) : Csc -> Outcome :=
  _do_change_state id_data enterControl [OFFLINE; FAULT] STANDBY.

(** [do_exitControl]: after a successful change of state the coroutine [die]
    is scheduled; an exception of [_do_change_state] propagates before. *)
Definition do_exitControl (id_data : CommandIdData D) (self : Csc) : Outcome :=
  match _do_change_state id_data exitControl [STANDBY] OFFLINE self with
  | Raise e self => Raise e self
  | Return self =>
      Return (mkCsc (state self) (summary_state self) (evt_summaryState self)
                    true (user self))
  end.

Definition do_standby (id_data : CommandIdData D) : Csc -> Outcome :=
  _do_change_state id_data standby [DISABLED] STANDBY.

Definition do_start (id_data : CommandIdData D) : Csc -> Outcome :=
  _do_change_state id_data start [STANDBY] DISABLED.

(** The callback the constructor installs for each command:
    [cmd.callback = getattr(self, f"do_{name}")]. *)
Definition do_ (name : CmdName) : CommandIdData D -> Csc -> Outcome :=
  match name with
  | start => do_start
  | enable => do_enable
  | disable => do_disable
  | standby => do_standby
  | enterControl => do_enterControl
  | exitControl => do_exitControl
  end.

(** The [allowed_curr_states] and [new_state] arguments that [do_<name>]
    passes to [_do_change_state]. *)
Definition allowed_curr_states (name : CmdName) : list State :=
  match name with
  | start => [STANDBY]
  | enable => [DISABLED]
  | disable => [ENABLED]
  | standby => [DISABLED]
  | enterControl => [OFFLINE; FAULT]
  | exitControl => [STANDBY]
  end.

Definition new_state (name : CmdName) : State :=
  match name with
  | start => DISABLED
  | enable => ENABLED
  | disable => DISABLED
  | standby => STANDBY
  | enterControl => STANDBY
  | exitControl => OFFLINE
  end.

(** What [do_exitControl] adds after the change of state. *)
Definition after_change (name : CmdName) (self : Csc) : Csc :=
  match name with
  | exitControl =>
      mkCsc (state self) (summary_state self) (evt_summaryState self) true (user self)
  | _ => self
  end.

End Csc.

(** The hooks of the base class: [pass]. *)
Definition begin_default (U D : Type) (_ : CmdName) : Hook U D :=
  fun _ self => Return self.
Definition end_default (U D : Type) (_ : CmdName) : Hook U D :=
  fun _ self => Return self.

(** The transition table of the specification: source states and target. *)
Definition table_sources (name : CmdName) : list State :=
  match name with
  | start => [STANDBY]
  | enable => [DISABLED]
  | disable => [ENABLED]
  | standby => [DISABLED; FAULT]
  | enterControl => [OFFLINE; FAULT]
  | exitControl => [STANDBY]
  end.

(** A component as the constructor leaves it ([self.state = State.STANDBY]),
    moved to a given state, with nothing published yet. *)
Definition csc_in (s : State) : Csc unit :=
  mkCsc s 0%Z [] false tt.

Definition no_data : CommandIdData unit := mkIdData 1%Z tt.

End BaseCsc.

(* ================================================================== *)
(** * Utilities ([lsst/ts/salobj/base.py])                              *)
(* ================================================================== *)

Module Base.

Open Scope Z_scope.

(** [MAX_SAL_INDEX = (1 << 31) - 1] *)
Definition MAX_SAL_INDEX : Z := Z.shiftl 1 31 - 1.

Inductive ValueError : Type := mkValueError.

(** ** [index_generator] *)

(** The state of the generator object returned by [index_generator]: the
    bounds it closed over and the local variable [index] of [index_impl]. *)
Record IndexGen : Type := mkIndexGen { imin : Z; imax : Z; index : Z }.

(** [index_generator(imin, imax, i0)]: the arguments are checked on the call;
    the inner generator starts with [index = i0 - 1]. *)
Definition index_generator (imin imax : Z) (i0 : option Z) : ValueError + IndexGen :=
  let i0 := match i0 with None => imin | Some i => i end in
  if imax <=? imin then inl mkValueError
  else if negb ((imin <=? i0) && (i0 <=? imax)) then inl mkValueError
  else inr (mkIndexGen imin imax (i0 - 1)).

(** One [next()] on the generator: the value yielded and the generator after. *)
Definition next (g : IndexGen) : Z * IndexGen :=
  let index := index g + 1 in
  let index := if index >? imax g then imin g else index in
  (index, mkIndexGen (imin g) (imax g) index).

(** The generator after [k] draws, and the value of draw number [k]
    (the first draw is number 0). *)
Definition after (k : N) (g : IndexGen) : IndexGen :=
  N.iter k (fun g => snd (next g)) g.

Definition draw (k : N) (g : IndexGen) : Z := fst (next (after k g)).

(** The generator of the tests and of a session: [index_generator()]. *)
Definition default_generator : IndexGen := mkIndexGen 1 MAX_SAL_INDEX 0.

(** ** Regular expressions, as far as [_NAME_REGEX] needs them *)

Definition str : Type := list ascii.

(** A pattern of Python's [re]: a character set, a greedy repetition of a
    character set, concatenation, a greedy optional part, a named or a plain
    group, and the anchor [$]. *)
Inductive re : Type :=
| Chars (p : ascii -> bool)
| Lit (c : ascii)
| Star (p : ascii -> bool)
| Plus (p : ascii -> bool)
| Cat (r1 r2 : re)
| Opt (r : re)
| Named (name : string) (r : re)
| Paren (r : re)
| Dollar.

(** The named groups that took part in the match. *)
Definition groups : Type := list (string * str).

Definition group (name : string) (g : groups) : option str :=
  match find (fun kv => String.eqb (fst kv) name) g with
  | Some kv => Some (snd kv)
  | None => None
  end.

Definition set_group (name : string) (v : str) (g : groups) : groups :=
  (name, v) :: filter (fun kv => negb (String.eqb (fst kv) name)) g.

Section Matcher.

Variable R : Type.

(** Greedy repetition with backtracking: take one more character if it is in
    the set and the rest of the pattern then matches; otherwise stop here. *)
Fixpoint star (p : ascii -> bool) (s : str) (k : str -> option R) : option R :=
  match s with
  | c :: s' =>
      if p c then
        match star p s' k with
        | Some r => Some r
        | None => k s
        end
      else k s
  | [] => k s
  end.

(** [$] without [re.MULTILINE]: at the end of the string, or just before a
    newline that is the last character. *)
Definition at_dollar (s : str) : bool :=
  match s with
  | [] => true
  | [c] => Ascii.eqb c "010"%char
  | _ => false
  end.

(** The text a group consumed: what is gone between its start and its end. *)
Definition consumed (s s' : str) : str :=
  firstn (List.length s - List.length s')%nat s.

(** Backtracking matcher in continuation-passing style: [k] is the rest of
    the pattern; alternatives are tried in the order of Python's engine. *)
Fixpoint backtrack (r : re) (s : str) (g : groups)
    (k : str -> groups -> option R) : option R :=
  match r with
  | Chars p =>
      match s with
      | c :: s' => if p c then k s' g else None
      | [] => None
      end
  | Lit c0 =>
      match s with
      | c :: s' => if Ascii.eqb c c0 then k s' g else None
      | [] => None
      end
  | Star p => star p s (fun s' => k s' g)
  | Plus p =>
      match s with
      | c :: s' => if p c then star p s' (fun s'' => k s'' g) else None
      | [] => None
      end
  | Cat r1 r2 => backtrack r1 s g (fun s' g' => backtrack r2 s' g' k)
  | Opt r1 =>
      match backtrack r1 s g k with
      | Some x => Some x
      | None => k s g
      end
  | Named name r1 =>
      backtrack r1 s g (fun s' g' => k s' (set_group name (consumed s s') g'))
  | Paren r1 => backtrack r1 s g k
  | Dollar => if at_dollar s then k s g else None
  end.

End Matcher.

(** [pattern.match(s)]: the pattern must match at the start of [s]. *)
Definition re_match (r : re) (s : str) : option groups :=
  backtrack r s [] (fun _ g => Some g).

Definition in_range (lo hi c : ascii) : bool :=
  (N_of_ascii lo <=? N_of_ascii c)%N && (N_of_ascii c <=? N_of_ascii hi)%N.

(** [\d] *)
Definition digit (c : ascii) : bool := in_range "0" "9" c.

(** [[a-zA-Z_-]] *)
Definition name_start (c : ascii) : bool :=
  in_range "a" "z" c || in_range "A" "Z" c || Ascii.eqb c "_" || Ascii.eqb c "-".

(** [[a-zA-Z0-9_-]] *)
Definition name_char (c : ascii) : bool :=
  in_range "a" "z" c || in_range "A" "Z" c || in_range "0" "9" c
  || Ascii.eqb c "_" || Ascii.eqb c "-".

(** [_NAME_REGEX]: the group [name] is one character of [[a-zA-Z_-]] and
    then any number of [[a-zA-Z0-9_-]]; an optional plain group follows, a
    colon and the group [index] of one or more [\d]; the pattern ends
    with [$]. *)
Definition _NAME_REGEX : re :=
  Cat (Named "name" (Cat (Chars name_start) (Star name_char)))
      (Cat (Opt (Paren (Cat (Lit ":") (Named "index" (Plus digit)))))
           Dollar).

(** [int(index)] on a string of decimal digits. *)
Definition digit_value (c : ascii) : Z := Z.of_N (N_of_ascii c) - 48.

Definition int (d : str) : Z :=
  fold_left (fun acc c => 10 * acc + digit_value c) d 0.

(** [name_to_name_index] *)
Definition name_to_name_index (name : str) : ValueError + (str * Z) :=
  match re_match _NAME_REGEX name with
  | None => inl mkValueError
  | Some m =>
      match group "name" m with
      | None => inl mkValueError
      | Some name =>
          let index := group "index" m in
          let index := match index with None => 0 | Some d => int d end in
          inr (name, index)
      end
  end.

(** The characters below 256 that Python's [str.isspace] accepts. *)
Definition whitespace (c : ascii) : bool :=
  let n := N_of_ascii c in
  ((9 <=? n) && (n <=? 13))%N || ((28 <=? n) && (n <=? 32))%N
  || (n =? 133)%N || (n =? 160)%N.

Definition chars (s : string) : str := list_ascii_of_string s.

(** ** Vocabulary for the facts about [name_to_name_index] *)

Definition newline : ascii := "010"%char.

Fixpoint take_while (p : ascii -> bool) (s : str) : str :=
  match s with
  | c :: s' => if p c then c :: take_while p s' else []
  | [] => []
  end.

Fixpoint drop_while (p : ascii -> bool) (s : str) : str :=
  match s with
  | c :: s' => if p c then drop_while p s' else s
  | [] => []
  end.

(** A text of the form [name]: what the group [name] of the pattern
    describes. *)
Definition valid_name (n : str) : bool :=
  match n with
  | c :: t => name_start c && forallb name_char t
  | [] => false
  end.

(** A text of the form [index]: one or more decimal digits. *)
Definition is_index (d : str) : bool :=
  match d with
  | [] => false
  | _ => forallb digit d
  end.

(** The pattern read from left to right without backtracking: the longest
    name, then a colon and the longest run of digits if there is one, then
    the end of the text or its final newline. *)
Definition parse (s : str) : ValueError + (str * Z) :=
  match s with
  | [] => inl mkValueError
  | c :: s' =>
      if name_start c then
        let name := c :: take_while name_char s' in
        let rest := drop_while name_char s' in
        let without_index :=
          if at_dollar rest then inr (name, 0) else inl mkValueError in
        match rest with
        | colon :: d0 :: t =>
            if Ascii.eqb colon ":" && digit d0 then
              if at_dollar (drop_while digit t)
              then inr (name, int (d0 :: take_while digit t))
              else without_index
            else without_index
        | _ => without_index
        end
      else inl mkValueError
  end.

End Base.

(* ================================================================== *)
(** * The session ([lsst/ts/salobj/sal_info.py])                        *)
(* ================================================================== *)

Module SalInfo.

Import Base.
Open Scope Z_scope.

(** [MAX_RESULT_LEN = 256] *)
Definition MAX_RESULT_LEN : Z := 256.

Inductive exn : Type :=
| ValueError
| RuntimeError (msg : string)
| DDSException
| CancelledError
| TopicError (msg : string).

(** ** A small error monad for code that raises *)

Definition M (A : Type) : Type := exn + A.
Definition ret {A : Type} (a : A) : M A := inr a.
Definition raise {A : Type} (e : exn) : M A := inl e.
Definition bind {A B : Type} (m : M A) (k : A -> M B) : M B :=
  match m with
  | inl e => inl e
  | inr a => k a
  end.

Notation "x <- m ;; k" := (bind m (fun x => k))
  (at level 61, m at next level, right associativity).

(** ** Python containers *)

Definition len {A : Type} (l : list A) : Z := Z.of_nat (List.length l).

(** [l[0:n]] for [n >= 0]. *)
Definition slice_to {A : Type} (n : Z) (l : list A) : list A :=
  firstn (Z.to_nat n) l.

(** [l[-n:]] for [n > 0]: the start [len(l) - n] is clipped at 0. *)
Definition slice_last {A : Type} (n : Z) (l : list A) : list A :=
  skipn (Z.to_nat (Z.max 0 (len l - n))) l.

Section Dict.

(** A [dict]: the items in insertion order, keys pairwise different. *)
Variables K V : Type.
Variable eqb : K -> K -> bool.

Definition dict : Type := list (K * V).

(** [d.get(k, None)] *)
Definition dict_get (k : K) (d : dict) : option V :=
  match find (fun kv => eqb (fst kv) k) d with
  | Some kv => Some (snd kv)
  | None => None
  end.

(** [del d[k]] *)
Definition dict_del (k : K) (d : dict) : dict :=
  filter (fun kv => negb (eqb (fst kv) k)) d.

(** [d.popitem()]: the item inserted last, and the dict without it. *)
Definition dict_popitem (d : dict) : option ((K * V) * dict) :=
  match rev d with
  | [] => None
  | kv :: r => Some (kv, rev r)
  end.

End Dict.

(** [l.pop()]: the last element and the list without it. *)
Definition list_pop {A : Type} (l : list A) : option (A * list A) :=
  match rev l with
  | [] => None
  | x :: r => Some (x, rev r)
  end.

(** A truthy container is a non-empty one. *)
Definition truthy {A : Type} (l : list A) : bool :=
  match l with [] => false | _ => true end.

Definition str_eqb (a b : str) : bool :=
  if list_eq_dec ascii_dec a b then true else false.

(** ** Acknowledgements *)

(** Modelled from the spec: the status codes of [sal_enums.SalRetCode], a
    module that is not among the sources; the specification names them
    in its taxonomy of acknowledgement codes. *)
Inductive SalRetCode : Type :=
| CMD_NOACK | CMD_ACK | CMD_INPROGRESS | CMD_COMPLETE
| CMD_FAILED | CMD_ABORTED | CMD_STALLED | CMD_TIMEOUT.

(** Modelled from the spec: which status codes end a command; the
    specification gives one terminal of Complete, Failed, Aborted, Stalled,
    Timeout, NoAck after Acknowledged and any number of InProgress. *)
Definition terminal (a : SalRetCode) : bool :=
  match a with
  | CMD_ACK | CMD_INPROGRESS => false
  | _ => true
  end.

(** A sample of the [ackcmd] topic, as [AckCmdType] builds it: the four
    fields of the constructor and the issuer's [identity]. *)
Record AckCmd : Type := mkAckCmd {
  private_seqNum : Z;
  ack : SalRetCode;
  error : Z;
  result : str;
  identity : str
}.

(** Modelled from the spec: [topics.CommandInfo], a class that is not among
    the sources; one command in flight, with its sequence number and the most
    recent acknowledgement received. *)
Record CommandInfo : Type := mkCommandInfo {
  seq_num : Z;
  ackcmd : option AckCmd
}.

(** Modelled from the spec: [CommandInfo.add_ackcmd], absent from the
    sources; it records the acknowledgement as the most recent one and tells
    whether it is a terminal one. *)
Definition add_ackcmd (a : AckCmd) (c : CommandInfo) : CommandInfo * bool :=
  (mkCommandInfo (seq_num c) (Some a), terminal (ack a)).

(** Modelled from the spec: [CommandInfo.abort], absent from the sources; it
    resolves the command with a synthetic Aborted acknowledgement that
    carries the text given. *)
Definition abort (text : str) (c : CommandInfo) : CommandInfo :=
  mkCommandInfo (seq_num c) (Some (mkAckCmd (seq_num c) CMD_ABORTED 0 text [])).

(** ** Futures *)

(** An [asyncio.Future] or [asyncio.Task]. *)
Inductive Future : Type :=
| Pending
| Result
| Exception (e : exn)
| Cancelled.

Definition done (f : Future) : bool :=
  match f with Pending => false | _ => true end.

(** [f.cancel()] does nothing on a future that is done. *)
Definition cancel (f : Future) : Future :=
  if done f then f else Cancelled.

(** [await f]: [None] while the coroutine stays suspended, else how the
    [await] ends. *)
Definition await (f : Future) : option (option exn) :=
  match f with
  | Pending => None
  | Result => Some None
  | Exception e => Some (Some e)
  | Cancelled => Some (Some CancelledError)
  end.

(** [base.make_done_future()] *)
Definition make_done_future : Future := Result.

Section Session.

(** Payload of a topic sample, and the type of a TAI time stamp. *)
Variables P T : Type.

(** [_sample_to_data] turns the reception time of the transport into TAI
    with [base.tai_from_utc_unix], in floating point; the conversion is kept
    abstract. *)
Variable tai_of_reception : Z -> T.

(** ** Topic samples and read topics *)

Record SampleData : Type := mkSampleData {
  payload : P;
  private_rcvStamp : T
}.

Record SampleInfo : Type := mkSampleInfo {
  valid_data : bool;
  reception_timestamp : Z
}.

(** The attributes of a [topics.ReadTopic] that the session reads, and its
    queue of samples, oldest first, bounded by [maxlen]. *)
Record Reader : Type := mkReader {
  volatile : bool;
  r_isopen : bool;
  max_history : Z;
  maxlen : nat;
  _data_queue : list SampleData
}.

Record Writer : Type := mkWriter { w_name : string }.

(** Modelled from the spec: [ReadTopic._queue_data], absent from the
    sources; the samples go to the end of the bounded queue and the oldest
    ones are evicted on overflow. *)
Definition _queue_data (r : Reader) (sd_list : list SampleData) : Reader :=
  let q := _data_queue r ++ sd_list in
  mkReader (volatile r) (r_isopen r) (max_history r) (maxlen r)
           (skipn (List.length q - maxlen r)%nat q).

(** ** The transport and the topics' own [close] *)

(** [read_cond.triggered()] and [reader._reader.take_cond(read_cond, n)] of
    the DDS library; the second argument of [take_cond] counts the attempts
    made on this condition (0 for the first call). *)
Variable triggered : nat -> bool.
Variable take_cond : nat -> nat -> Z -> M (list (SampleData * SampleInfo)).

(** [DDS_READ_QUEUE_LEN], a constant of the module [domain]. *)
Variable DDS_READ_QUEUE_LEN : Z.

(** [await reader.close()] and [await writer.close()] of the module
    [topics]: the exception raised, if any. *)
Variable reader_close : Reader -> option exn.
Variable writer_close : Writer -> option exn.

(** ** The session object *)

(** The attributes of a [SalInfo] that the modelled methods use.
    [_running_cmds] maps a sequence number to the address of a [CommandInfo];
    [cmds] is the store of these objects, which the callers of a command
    share with the session. [_readers] maps a read condition to its
    [ReadTopic]. [identity] is [domain.identity] and [registered] tells
    whether the domain knows this session ([add_salinfo],
    [remove_salinfo]). *)
Record SalInfo : Type := mkSalInfo {
  isopen : bool;
  start_called : bool;
  identity_ : str;
  registered : bool;
  command_names : list str;
  start_task : Future;
  done_task : Future;
  _running_cmds : dict Z nat;
  cmds : nat -> CommandInfo;
  _readers : dict nat Reader;
  _writers : list Writer;
  guard_triggered : bool;
  _read_loop_task : Future
}.

Definition set_isopen (b : bool) (s : SalInfo) : SalInfo :=
  mkSalInfo b (start_called s) (identity_ s) (registered s) (command_names s)
    (start_task s) (done_task s) (_running_cmds s) (cmds s) (_readers s)
    (_writers s) (guard_triggered s) (_read_loop_task s).

Definition set_start_called (b : bool) (s : SalInfo) : SalInfo :=
  mkSalInfo (isopen s) b (identity_ s) (registered s) (command_names s)
    (start_task s) (done_task s) (_running_cmds s) (cmds s) (_readers s)
    (_writers s) (guard_triggered s) (_read_loop_task s).

Definition set_registered (b : bool) (s : SalInfo) : SalInfo :=
  mkSalInfo (isopen s) (start_called s) (identity_ s) b (command_names s)
    (start_task s) (done_task s) (_running_cmds s) (cmds s) (_readers s)
    (_writers s) (guard_triggered s) (_read_loop_task s).

Definition set_start_task (f : Future) (s : SalInfo) : SalInfo :=
  mkSalInfo (isopen s) (start_called s) (identity_ s) (registered s) (command_names s)
    f (done_task s) (_running_cmds s) (cmds s) (_readers s)
    (_writers s) (guard_triggered s) (_read_loop_task s).

Definition set_done_task (f : Future) (s : SalInfo) : SalInfo :=
  mkSalInfo (isopen s) (start_called s) (identity_ s) (registered s) (command_names s)
    (start_task s) f (_running_cmds s) (cmds s) (_readers s)
    (_writers s) (guard_triggered s) (_read_loop_task s).

Definition set_running_cmds (d : dict Z nat) (s : SalInfo) : SalInfo :=
  mkSalInfo (isopen s) (start_called s) (identity_ s) (registered s) (command_names s)
    (start_task s) (done_task s) d (cmds s) (_readers s)
    (_writers s) (guard_triggered s) (_read_loop_task s).

Definition set_cmds (h : nat -> CommandInfo) (s : SalInfo) : SalInfo :=
  mkSalInfo (isopen s) (start_called s) (identity_ s) (registered s) (command_names s)
    (start_task s) (done_task s) (_running_cmds s) h (_readers s)
    (_writers s) (guard_triggered s) (_read_loop_task s).

Definition set_readers (d : dict nat Reader) (s : SalInfo) : SalInfo :=
  mkSalInfo (isopen s) (start_called s) (identity_ s) (registered s) (command_names s)
    (start_task s) (done_task s) (_running_cmds s) (cmds s) d
    (_writers s) (guard_triggered s) (_read_loop_task s).

Definition set_writers (l : list Writer) (s : SalInfo) : SalInfo :=
  mkSalInfo (isopen s) (start_called s) (identity_ s) (registered s) (command_names s)
    (start_task s) (done_task s) (_running_cmds s) (cmds s) (_readers s)
    l (guard_triggered s) (_read_loop_task s).

Definition set_guard_triggered (b : bool) (s : SalInfo) : SalInfo :=
  mkSalInfo (isopen s) (start_called s) (identity_ s) (registered s) (command_names s)
    (start_task s) (done_task s) (_running_cmds s) (cmds s) (_readers s)
    (_writers s) b (_read_loop_task s).

Definition set_read_loop_task (f : Future) (s : SalInfo) : SalInfo :=
  mkSalInfo (isopen s) (start_called s) (identity_ s) (registered s) (command_names s)
    (start_task s) (done_task s) (_running_cmds s) (cmds s) (_readers s)
    (_writers s) (guard_triggered s) f.

(** An assignment to the object at one address of the store. *)
Definition store (a : nat) (c : CommandInfo) (h : nat -> CommandInfo) : nat -> CommandInfo :=
  fun b => if Nat.eqb b a then c else h b.

(** ** [AckCmdType] and [makeAckCmd] *)

(** The property [AckCmdType]: the class of the [ackcmd] topic, here its
    constructor; a component without commands has no such topic. *)
Definition AckCmdType (self : SalInfo)
  : M (Z -> SalRetCode -> Z -> str -> AckCmd) :=
  if len (command_names self) =? 0 then
    raise (RuntimeError "This component has no commands, so no ackcmd topic")
  else
    ret (fun private_seqNum ack error result =>
           mkAckCmd private_seqNum ack error result []).

(** [makeAckCmd] *)
Definition makeAckCmd (self : SalInfo) (private_seqNum : Z) (ack : SalRetCode)
    (error : Z) (result : str) (truncate_result : bool) : M AckCmd :=
  result <- (if len result >? MAX_RESULT_LEN then
               if truncate_result then ret (slice_to MAX_RESULT_LEN result)
               else raise ValueError
             else ret result) ;;
  make <- AckCmdType self ;;
  ret (make private_seqNum ack error result).

(** ** [_ackcmd_callback] *)

Definition _ackcmd_callback (data : AckCmd) (self : SalInfo) : SalInfo :=
  if negb (truthy (_running_cmds self)) then self
  else if truthy (identity data) && negb (str_eqb (identity data) (identity_ self))
  then self
  else
    match dict_get Z.eqb (private_seqNum data) (_running_cmds self) with
    | None => self
    | Some a =>
        let (cmd_info, isdone) := add_ackcmd data (cmds self a) in
        let self := set_cmds (store a cmd_info (cmds self)) self in
        if isdone then
          set_running_cmds
            (dict_del Z.eqb (private_seqNum data) (_running_cmds self)) self
        else self
    end.

(** ** [close] *)

(** The coroutine [close] runs on the event loop in pieces, from one [await]
    to the next. A program point is the [await] the coroutine is suspended
    at: not yet started, in [asyncio.sleep], in [reader.close()] or
    [writer.close()] for the topic just popped, in [self.done_task] (the
    path taken when the session is not open any more), or finished, with
    the exception that left the coroutine if there is one. *)
Inductive ClosePoint : Type :=
| Entry
| Sleeping
| ClosingReader (reader : Reader)
| ClosingWriter (writer : Writer)
| WaitingDone
| Finished (e : option exn).

(** The [finally] clause. *)
Definition close_finally (self : SalInfo) : SalInfo :=
  if negb (done (done_task self)) then set_done_task Result self else self.

(** [while self._running_cmds: ... cmd_info.abort("shutting down")], on the
    items in the order [popitem] takes them. *)
Fixpoint abort_items (items : list (Z * nat)) (h : nat -> CommandInfo)
  : nat -> CommandInfo :=
  match items with
  | [] => h
  | (_, a) :: rest => abort_items rest (store a (abort (chars "shutting down") (h a)) h)
  end.

Definition abort_running_cmds (self : SalInfo) : SalInfo :=
  set_running_cmds []
    (set_cmds (abort_items (rev (_running_cmds self)) (cmds self)) self).

(** From the head of the loop over the writers to the end of [close]. *)
Definition close_from_writers (self : SalInfo) : ClosePoint * SalInfo :=
  match list_pop (_writers self) with
  | Some (writer, rest) => (ClosingWriter writer, set_writers rest self)
  | None =>
      let self := abort_running_cmds self in
      let self := set_registered false self in
      (Finished None, close_finally self)
  end.

(** From the head of the loop over the readers. *)
Definition close_from_readers (self : SalInfo) : ClosePoint * SalInfo :=
  match dict_popitem (_readers self) with
  | Some ((_, reader), rest) => (ClosingReader reader, set_readers rest self)
  | None => close_from_writers self
  end.

(** One piece of [close]: from the program point given to the next one. *)
Definition close_step (pc : ClosePoint) (self : SalInfo) : ClosePoint * SalInfo :=
  match pc with
  | Entry =>
      if negb (isopen self) then
        match await (done_task self) with
        | Some e => (Finished e, self)
        | None => (WaitingDone, self)
        end
      else
        let self := set_isopen false self in
        let self := set_guard_triggered true self in
        (Sleeping, self)
  | Sleeping =>
      let self := set_read_loop_task (cancel (_read_loop_task self)) self in
      close_from_readers self
  | ClosingReader reader =>
      match reader_close reader with
      | Some e => (Finished (Some e), close_finally self)
      | None => close_from_readers self
      end
  | ClosingWriter writer =>
      match writer_close writer with
      | Some e => (Finished (Some e), close_finally self)
      | None => close_from_writers self
      end
  | WaitingDone =>
      match await (done_task self) with
      | Some e => (Finished e, self)
      | None => (WaitingDone, self)
      end
  | Finished e => (Finished e, self)
  end.

Definition step (c : ClosePoint * SalInfo) : ClosePoint * SalInfo :=
  close_step (fst c) (snd c).

(** [await salinfo.close()] with nothing else scheduled in between: the
    pieces one after the other; one per topic and three more are enough. *)
Definition close (self : SalInfo) : ClosePoint * SalInfo :=
  Nat.iter (3 + List.length (_readers self) + List.length (_writers self))
           step (Entry, self).

(** Two calls of [close] on the event loop: the loop runs a piece of the
    first call ([true]) or of the second one ([false]) at a time. *)
Definition step2 (c : ClosePoint * ClosePoint * SalInfo) (first : bool)
  : ClosePoint * ClosePoint * SalInfo :=
  let '(p1, p2, self) := c in
  if first then let (p1', self') := close_step p1 self in (p1', p2, self')
  else let (p2', self') := close_step p2 self in (p1, p2', self').

Definition interleave (schedule : list bool) (self : SalInfo)
  : ClosePoint * ClosePoint * SalInfo :=
  fold_left step2 schedule (Entry, Entry, self).

(** ** [start]: the late-joiner data *)

(** [_sample_to_data] *)
Definition _sample_to_data (sd : SampleData) (si : SampleInfo) : SampleData :=
  let rcv_tai := tai_of_reception (reception_timestamp si) in
  mkSampleData (payload sd) rcv_tai.

(** The two attempts at [take_cond] of the loop. *)
Definition take_history (read_cond : nat) : M (list (SampleData * SampleInfo)) :=
  match take_cond read_cond 0%nat DDS_READ_QUEUE_LEN with
  | inr data_list => ret data_list
  | inl DDSException =>
      match take_cond read_cond 1%nat DDS_READ_QUEUE_LEN with
      | inr data_list => ret data_list
      | inl DDSException =>
          raise (RuntimeError "dds error while reading late joiner data; giving up")
      | inl e => raise e
      end
  | inl e => raise e
  end.

(** The body of the loop for one reader: the list handed to
    [reader._queue_data], if the call is made. *)
Definition history_items (read_cond : nat) (reader : Reader)
  : M (option (list SampleData)) :=
  if volatile reader || negb (r_isopen reader) || negb (triggered read_cond)
  then ret None
  else
    data_list <- take_history read_cond ;;
    let sd_list :=
      map (fun p => _sample_to_data (fst p) (snd p))
          (filter (fun p => valid_data (snd p)) data_list) in
    if max_history reader >? 0 then
      let sd_list := slice_last (max_history reader) sd_list in
      if truthy sd_list then ret (Some sd_list) else ret None
    else ret None.

(** How the loop over the readers ends. *)
Inductive LoopEnd : Type :=
| Completed
| ShuttingDown
| Failed (e : exn).

(** [for read_cond, reader in list(self._readers.items())]: the readers as
    the loop leaves them. No [await] occurs in the loop, so that
    [self.isopen] is the same in every round. *)
Fixpoint history_loop (self_isopen : bool) (items : list (nat * Reader))
  : LoopEnd * list (nat * Reader) :=
  match items with
  | [] => (Completed, [])
  | (read_cond, reader) :: rest =>
      if negb self_isopen then (ShuttingDown, items)
      else
        match history_items read_cond reader with
        | inl e => (Failed e, items)
        | inr batch =>
            let reader :=
              match batch with
              | Some sd_list => _queue_data reader sd_list
              | None => reader
              end in
            let (e, rest) := history_loop self_isopen rest in
            (e, (read_cond, reader) :: rest)
        end
  end.

(** [start], from the return of [_wait_history] on; log records are left
    out. *)
Definition start (self : SalInfo) : option exn * SalInfo :=
  if start_called self then (Some (RuntimeError "Start already called"), self)
  else
    let self := set_start_called true self in
    if negb (isopen self) then (None, self)
    else
      match history_loop (isopen self) (_readers self) with
      | (Completed, readers) =>
          let self := set_readers readers self in
          let self := set_read_loop_task Pending self in
          (None, set_start_task Result self)
      | (ShuttingDown, readers) => (None, set_readers readers self)
      | (Failed e, readers) =>
          let self := set_readers readers self in
          (Some e, set_start_task (Exception e) self)
      end.

(** ** Readings of the specification, to compare the code with *)

(** The samples a round of the loop enqueues: the argument of
    [_queue_data] when the call is made, and none otherwise. *)
Definition enqueued (x : M (option (list SampleData))) : list SampleData :=
  match x with
  | inr (Some sd_list) => sd_list
  | _ => []
  end.

(** A reader after a batch has gone through the enqueue path. *)
Definition deliver (reader : Reader) (batch : list SampleData) : Reader :=
  match batch with
  | [] => reader
  | _ => _queue_data reader batch
  end.

(** The valid samples among those the transport hands over. *)
Definition valid_samples (data_list : list (SampleData * SampleInfo))
  : list SampleData :=
  map (fun p => _sample_to_data (fst p) (snd p))
      (filter (fun p => valid_data (snd p)) data_list).

(** The backlog of valid historical samples of a read condition: empty when
    the condition is not triggered, and not available when the transport
    fails twice. *)
Definition backlog (read_cond : nat) : option (list SampleData) :=
  if triggered read_cond then
    match take_history read_cond with
    | inr data_list => Some (valid_samples data_list)
    | inl _ => None
    end
  else Some [].

(** The acknowledgement that resolves a command aborted by [close]. *)
Definition shutting_down_ack (c : CommandInfo) : AckCmd :=
  mkAckCmd (seq_num c) CMD_ABORTED 0 (chars "shutting down") [].

(** A second call of [close] that waits: it has not started, it is
    suspended in [await self.done_task], or it has returned with what that
    [await] gave. *)
Definition waits (pc : ClosePoint) (self : SalInfo) : Prop :=
  pc = Entry \/ pc = WaitingDone \/
  (exists e, pc = Finished e /\ await (done_task self) = Some e).

(** Two calls of [close] on a session that was open as [self0]: none has run
    yet, or the session is not open any more, one of the calls is some
    pieces into its run and the other one waits. *)
Definition one_closes (self0 : SalInfo)
    (c : ClosePoint * ClosePoint * SalInfo) : Prop :=
  let '(p1, p2, self) := c in
  (p1 = Entry /\ p2 = Entry /\ self = self0) \/
  (isopen self = false /\
   (((exists n, Nat.iter n step (Entry, self0) = (p1, self)) /\ waits p2 self) \/
    ((exists n, Nat.iter n step (Entry, self0) = (p2, self)) /\ waits p1 self))).

(** The session that a call of [close] leaves when no topic fails to
    close. *)
Definition closed (self : SalInfo) : SalInfo :=
  close_finally
    (set_registered false
       (abort_running_cmds
          (set_writers []
             (set_readers []
                (set_read_loop_task (cancel (_read_loop_task self))
                   (set_guard_triggered true (set_isopen false self))))))).

End Session.

Arguments Entry {P T}.
Arguments Sleeping {P T}.
Arguments WaitingDone {P T}.
Arguments Finished {P T} e.

(** The last [n] elements of a list, in their order. *)
Definition last_n {A : Type} (n : nat) (l : list A) : list A :=
  rev (firstn n (rev l)).

(** ** Sessions to try the definitions on *)

Definition no_cmds : nat -> CommandInfo := fun _ => mkCommandInfo 0 None.

(** A session of a component without commands, as the constructor leaves
    it. *)
Definition session_without_commands : SalInfo Z unit :=
  mkSalInfo true false (chars "me") true [] Pending Pending
            [] no_cmds [] [] false make_done_future.

Definition demo_reader (history : Z) : Reader Z unit :=
  mkReader false true history 10 [].

Definition demo_cmds : nat -> CommandInfo :=
  store 0 (mkCommandInfo 7 None) (store 1 (mkCommandInfo 8 None) no_cmds).

(** A session of a component with one command, two commands in flight
    (sequence numbers 7 and 8), two readers and one writer. *)
Definition demo_session : SalInfo Z unit :=
  mkSalInfo true false (chars "me") true [chars "setScalars"] Pending Pending
            [(7, 0%nat); (8, 1%nat)] demo_cmds
            [(0%nat, demo_reader 1); (1%nat, demo_reader 2)]
            [mkWriter "ackcmd"] false Pending.

(** A transport that holds three samples for every condition, the second
    one invalid. *)
Definition demo_take (read_cond attempt : nat) (n : Z)
  : M (list (SampleData Z unit * SampleInfo)) :=
  ret [(mkSampleData 11 tt, mkSampleInfo true 1);
       (mkSampleData 12 tt, mkSampleInfo false 2);
       (mkSampleData 13 tt, mkSampleInfo true 3)].

End SalInfo.

(* ================================================================== *)
(** * Properties of the component state machine                         *)
(* ================================================================== *)

(* ================================================================== *)
(** * Names of components ([SalInfo.name_index])                        *)
(* ================================================================== *)

Module Naming.

Import Base.
Open Scope Z_scope.

(** The character of a decimal digit. *)
Definition digit_char (d : Z) : ascii :=
  match d with
  | 0 => "0" | 1 => "1" | 2 => "2" | 3 => "3" | 4 => "4"
  | 5 => "5" | 6 => "6" | 7 => "7" | 8 => "8" | _ => "9"
  end%char.

(** The decimal digits of a non-negative integer, the most significant
    first, in front of [acc]; [fuel] bounds their number. *)
Fixpoint digits_of (fuel : nat) (n : Z) (acc : str) : str :=
  match fuel with
  | O => acc
  | S fuel =>
      let acc := digit_char (n mod 10) :: acc in
      if n / 10 =? 0 then acc else digits_of fuel (n / 10) acc
  end.

(** [str(n)] for an integer, which is also how an f-string formats it: a
    minus sign for a negative number, then the decimal digits. A number has
    no more decimal digits than binary ones. *)
Definition format_int (n : Z) : str :=
  if n <? 0 then "-"%char :: digits_of (S (Z.to_nat (Z.log2 (- n)))) (- n) []
  else digits_of (S (Z.to_nat (Z.log2 n))) n [].

(** The property [SalInfo.name_index], on the attributes [name], [index]
    and [indexed] that it reads. *)
Definition name_index (name : str) (index : Z) (indexed : bool) : str :=
  if indexed then name ++ ":"%char :: format_int index else name.

End Naming.

(* ================================================================== *)
(** * The registry of topics and the start of a session                 *)
(** ([add_reader], [add_writer], [started], [assert_started] and a      *)
(** round of [_read_loop] in [lsst/ts/salobj/sal_info.py])              *)
(* ================================================================== *)

Module Session.

Import Base SalInfo.
Open Scope Z_scope.

Section MoreDict.

Variables K V : Type.
Variable eqb : K -> K -> bool.

(** [k in d] *)
Definition dict_has (k : K) (d : dict K V) : bool :=
  existsb (fun kv => eqb (fst kv) k) d.

(** [d[k] = v]: the value of a key that is present is replaced where it
    stands; a new key goes to the end. *)
Fixpoint dict_set (k : K) (v : V) (d : dict K V) : dict K V :=
  match d with
  | [] => [(k, v)]
  | (k', v') :: d' =>
      if eqb k' k then (k', v) :: d' else (k', v') :: dict_set k v d'
  end.

End MoreDict.

(** [f.cancelled()] *)
Definition cancelled (f : Future) : bool :=
  match f with Cancelled => true | _ => false end.

(** [f.exception()]: the exception of a future that is done, [None] for a
    result; the call itself raises on a future that is pending
    (InvalidStateError, written as a RuntimeError here) or cancelled. *)
Definition exception (f : Future) : M (option exn) :=
  match f with
  | Pending => raise (RuntimeError "Exception is not set.")
  | Result => ret None
  | Exception e => ret (Some e)
  | Cancelled => raise CancelledError
  end.

Section Registry.

Variables P T : Type.

(** The conditions attached to [self._waitset], in the order of the
    calls of [attach]. *)
Definition WaitSet : Type := list nat.

(** [add_reader(topic)]; [read_condition] is [topic._read_condition]. *)
Definition add_reader (read_condition : nat) (topic : Reader P T)
    (self : SalInfo P T) (waitset : WaitSet) : M (SalInfo P T * WaitSet) :=
  if start_called self then
    raise (RuntimeError "Cannot add topics after the start called")
  else if dict_has Nat.eqb read_condition (_readers self) then
    raise (RuntimeError "topic already added")
  else
    let self :=
      set_readers (dict_set Nat.eqb read_condition topic (_readers self)) self in
    ret (self, waitset ++ [read_condition]).

(** [add_writer(topic)] *)
Definition add_writer (topic : Writer) (self : SalInfo P T) : SalInfo P T :=
  set_writers (_writers self ++ [topic]) self.

(** The property [started]; [and] stops at the first operand that is
    false, so that [exception()] is only called on a future that is done
    and not cancelled. *)
Definition started (self : SalInfo P T) : bool :=
  if negb (done (start_task self)) then false
  else if cancelled (start_task self) then false
  else
    match exception (start_task self) with
    | inr None => true
    | _ => false
    end.

(** [assert_started] *)
Definition assert_started (self : SalInfo P T) : M unit :=
  if negb (started self) then raise (RuntimeError "Not started") else ret tt.

(** One round of the [for] loop of [_read_loop], for one condition that
    the wait returned: the reader registered for it, if it is open, gets
    the valid samples taken. [take_cond] is the transport; the length
    checker only logs and is left out. *)
Definition read_condition_round (tai_of_reception : Z -> T)
    (take_cond : nat -> Z -> M (list (SampleData P T * SampleInfo)))
    (condition : nat) (self : SalInfo P T) : M (SalInfo P T) :=
  match dict_get Nat.eqb condition (_readers self) with
  | None => ret self
  | Some reader =>
      if negb (r_isopen reader) then ret self
      else
        data_list <- take_cond condition (Z.of_nat (maxlen reader)) ;;
        let sd_list := valid_samples tai_of_reception data_list in
        if truthy sd_list then
          ret (set_readers
                 (dict_set Nat.eqb condition (_queue_data reader sd_list)
                           (_readers self))
                 self)
        else ret self
  end.

End Registry.

End Session.

(* ================================================================== *)
(** * A component over time ([BaseCsc.__init__] and the operations       *)
(** that reach a component, [salobj/base_csc.py])                       *)
(* ================================================================== *)

Module CscRun.

Import BaseCsc.

Section Run.

Variables U D : Type.
Variables begin_ end_ : CmdName -> Hook U D.

(** The state machine as [__init__] leaves it: [self.state = State.STANDBY],
    a fresh [summary_state] sample, nothing published. *)
Definition new_csc (u : U) : Csc U := mkCsc STANDBY 0%Z [] false u.

(** What reaches the state machine: a standard command, through the
    callback installed for it, or a call of [fault]. *)
Inductive Op : Type :=
| Command (name : CmdName) (id_data : CommandIdData D)
| Fault.

(** The component after an operation. An exception that a command raises
    goes to the caller of the callback; the component stays as the
    exception left it. *)
Definition apply_op (self : Csc U) (op : Op) : Csc U :=
  match op with
  | Command name id_data => self_of (do_ begin_ end_ name id_data self)
  | Fault => fault self
  end.

Definition run (ops : list Op) (self : Csc U) : Csc U :=
  fold_left apply_op ops self.

(** A hook that leaves the state machinery alone: whether it returns or
    raises, the state, the summary state, the events published and the
    scheduled shutdown are as it found them. The hooks of the base class
    are such hooks. *)
Definition keeps_state (h : Hook U D) : Prop :=
  forall id_data self,
    state (self_of (h id_data self)) = state self /\
    summary_state (self_of (h id_data self)) = summary_state self /\
    evt_summaryState (self_of (h id_data self)) = evt_summaryState self /\
    die_scheduled (self_of (h id_data self)) = die_scheduled self.

End Run.

End CscRun.

(* ================================================================== *)
(** * Commands and their [do_] methods                                   *)
(** ([_assert_do_methods_present] in [salobj/base_csc.py] and in        *)
(** [lsst/ts/salobj/controller.py], and the callbacks that              *)
(** [Controller.__init__] installs)                                     *)
(* ================================================================== *)

Module Methods.

Import Base SalInfo.

Inductive error : Type :=
| TypeError (msg : str)
| RuntimeError (msg : str).

(** [s.startswith(prefix)] *)
Fixpoint startswith (prefix s : str) : bool :=
  match prefix, s with
  | [], _ => true
  | _ :: _, [] => false
  | p :: prefix', c :: s' => Ascii.eqb c p && startswith prefix' s'
  end.

(** [x in l] *)
Definition mem (x : str) (l : list str) : bool := existsb (str_eqb x) l.

(** [set(l)]: every element once. *)
Definition set_of (l : list str) : list str := nodup (list_eq_dec ascii_dec) l.

(** [set(a) != set(b)] *)
Definition set_ne (a b : list str) : bool :=
  negb (forallb (fun x => mem x b) a && forallb (fun x => mem x a) b).

(** [set(a) - set(b)] *)
Definition set_diff (a b : list str) : list str :=
  filter (fun x => negb (mem x b)) (set_of a).

(** The order of strings: by the first character that differs, a prefix
    first. *)
Fixpoint str_leb (a b : str) : bool :=
  match a, b with
  | [], _ => true
  | _ :: _, [] => false
  | x :: a', y :: b' =>
      if (N_of_ascii x <? N_of_ascii y)%N then true
      else if (N_of_ascii x =? N_of_ascii y)%N then str_leb a' b'
      else false
  end.

Fixpoint insert (x : str) (l : list str) : list str :=
  match l with
  | [] => [x]
  | y :: l' => if str_leb x y then x :: l else y :: insert x l'
  end.

(** [sorted(l)] *)
Definition sorted (l : list str) : list str := fold_right insert [] l.

(** [sep.join(parts)] *)
Fixpoint join (sep : str) (parts : list str) : str :=
  match parts with
  | [] => []
  | [x] => x
  | x :: rest => x ++ sep ++ join sep rest
  end.

(** The names of the commands that have a [do_] method, from [dir(self)]. *)
Definition supported_command_names (dir_self : list str) : list str :=
  let do_names := filter (startswith (chars "do_")) dir_self in
  map (skipn 3) do_names.

Definition do_list (names : list str) : str :=
  join (chars ", ") (map (fun name => chars "do_" ++ name) (sorted names)).

(** [BaseCsc._assert_do_methods_present] *)
Definition _assert_do_methods_present (dir_self command_names : list str)
  : error + unit :=
  let supported_command_names := supported_command_names dir_self in
  if set_ne command_names supported_command_names then
    let err_msgs := [] in
    let unsupported_commands := set_diff command_names supported_command_names in
    let err_msgs :=
      if truthy unsupported_commands then
        err_msgs ++ [chars "must add " ++ do_list unsupported_commands
                       ++ chars " methods"]
      else err_msgs in
    let extra_commands := sorted (set_diff supported_command_names command_names) in
    let err_msgs :=
      if truthy extra_commands then
        err_msgs ++ [chars "must remove " ++ do_list extra_commands
                       ++ chars " methods"]
      else err_msgs in
    let err_msg := join (chars " and ") err_msgs in
    inl (TypeError (chars "This class " ++ err_msg))
  else inr tt.

(** [OPTIONAL_COMMAND_NAMES] of [controller.py] *)
Definition OPTIONAL_COMMAND_NAMES : list str :=
  [chars "abort"; chars "enterControl"; chars "setValue";
   chars "setSimulationMode"].

(** [Controller._assert_do_methods_present] *)
Definition controller_assert_do_methods_present
    (dir_self command_names : list str) : error + unit :=
  let supported_command_names := supported_command_names dir_self in
  if set_ne command_names supported_command_names then
    let err_msgs := [] in
    let unsupported_commands :=
      set_diff (set_diff command_names supported_command_names)
               OPTIONAL_COMMAND_NAMES in
    let err_msgs :=
      if truthy unsupported_commands then
        err_msgs ++ [chars "must add " ++ do_list unsupported_commands
                       ++ chars " methods"]
      else err_msgs in
    let extra_commands := sorted (set_diff supported_command_names command_names) in
    let err_msgs :=
      if truthy extra_commands then
        err_msgs ++ [chars "must remove " ++ do_list extra_commands
                       ++ chars " methods"]
      else err_msgs in
    if negb (truthy err_msgs) then inr tt
    else
      let err_msg := join (chars " and ") err_msgs in
      inl (TypeError (chars "This class " ++ err_msg))
  else inr tt.

(** The callback of a command: a [do_] method of the object, or the
    function [reject_command] that raises ExpectedError. *)
Inductive Callback : Type :=
| DoMethod (attr : str)
| RejectCommand.

(** The loop over the commands in [Controller.__init__] with
    [do_callbacks] set: [getattr(self, cmd_attr_name, None)] is a method
    when the attribute is in [dir(self)]. *)
Fixpoint assign_callbacks (dir_self command_names : list str)
  : error + list (str * Callback) :=
  match command_names with
  | [] => inr []
  | cmd_name :: rest =>
      let cmd_attr_name := chars "do_" ++ cmd_name in
      match
        (if mem cmd_attr_name dir_self then inr (DoMethod cmd_attr_name)
         else if negb (mem cmd_name OPTIONAL_COMMAND_NAMES) then
           inl (RuntimeError (chars "Can't find method " ++ cmd_attr_name))
         else inr RejectCommand)
      with
      | inl e => inl e
      | inr callback =>
          match assign_callbacks dir_self rest with
          | inl e => inl e
          | inr callbacks => inr ((cmd_name, callback) :: callbacks)
          end
      end
  end.

(** The check and the loop, as [Controller.__init__] runs them with
    [do_callbacks] set. *)
Definition init_callbacks (dir_self command_names : list str)
  : error + list (str * Callback) :=
  match controller_assert_do_methods_present dir_self command_names with
  | inl e => inl e
  | inr _ => assign_callbacks dir_self command_names
  end.

End Methods.

(* ================================================================== *)
(** * Closing a controller ([Controller.close],                          *)
(** [lsst/ts/salobj/controller.py])                                     *)
(* ================================================================== *)

Module ControllerClose.

Import SalInfo.

(** [self.done_task]: nothing but [close] sets it, so that it is pending,
    or holds a result or an exception. *)
Inductive DoneTask : Type :=
| NotDone
| DoneResult
| DoneException (e : exn).

(** The attributes of a [Controller] that [close] uses: [isopen],
    [done_task], and whether [_sal_log_handler] is installed. *)
Record Controller : Type := mkController {
  c_isopen : bool;
  c_done_task : DoneTask;
  sal_log_handler : bool
}.

(** The controller as [__init__] leaves it. *)
Definition new_controller : Controller := mkController true NotDone true.

(** How a call of [close] ends when it is left to run alone: it returns,
    it raises, or it stays suspended in [await self.done_task]. *)
Inductive CloseEnd : Type :=
| Returned
| Raised (e : exn)
| Suspended.

(** A call of [close]: the argument [exception], and what the awaited
    collaborators do during the call, namely whether [close_tasks] raises
    and what [domain.close()] raises, if anything. *)
Record CloseCall : Type := mkCloseCall {
  exception_arg : option exn;
  close_tasks_raises : bool;
  domain_close_raises : option exn
}.

(** The [finally] clause. *)
Definition close_finally (exception : option exn) (self : Controller)
  : Controller :=
  match c_done_task self with
  | NotDone =>
      match exception with
      | Some e => mkController (c_isopen self) (DoneException e) (sal_log_handler self)
      | None => mkController (c_isopen self) DoneResult (sal_log_handler self)
      end
  | _ => self
  end.

(** [close(exception)]. An exception of [close_tasks] is logged and
    dropped; an exception of [domain.close()] leaves through the
    [finally] clause. *)
Definition close (call : CloseCall) (self : Controller)
  : CloseEnd * Controller :=
  if negb (c_isopen self) then
    match c_done_task self with
    | NotDone => (Suspended, self)
    | DoneResult => (Returned, self)
    | DoneException _ => (Returned, self)
    end
  else
    let self := mkController false (c_done_task self) (sal_log_handler self) in
    let self := if close_tasks_raises call then self else self in
    let self := mkController (c_isopen self) (c_done_task self) false in
    match domain_close_raises call with
    | Some e => (Raised e, close_finally (exception_arg call) self)
    | None => (Returned, close_finally (exception_arg call) self)
    end.

(** Calls of [close] one after the other: how each ends, and the
    controller after the last. *)
Fixpoint close_all (calls : list CloseCall) (self : Controller)
  : list CloseEnd * Controller :=
  match calls with
  | [] => ([], self)
  | call :: rest =>
      let (e, self) := close call self in
      let (es, self) := close_all rest self in
      (e :: es, self)
  end.

End ControllerClose.

Unset Implicit Arguments.

Module BaseCscFacts.

Import BaseCsc.

Section Transitions.

Variables U D : Type.
Variables begin_ end_ : CmdName -> Hook U D.

Lemma State_eqb_eq : forall a b, State_eqb a b = true <-> a = b.
Proof.
  intros a b; unfold State_eqb; rewrite Z.eqb_eq; split.
  - destruct a, b; simpl; intro H; try reflexivity; discriminate H.
  - intros ->; reflexivity.
Qed.

Lemma State_in_In : forall x l, State_in x l = true <-> In x l.
Proof.
  intros x l; unfold State_in; rewrite existsb_exists; split.
  - intros [y [Hy Heq]]. apply State_eqb_eq in Heq. subst y. exact Hy.
  - intro H. exists x. split; [exact H | apply State_eqb_eq; reflexivity].
Qed.

Lemma State_in_false : forall x l, ~ In x l -> State_in x l = false.
Proof.
  intros x l H. destruct (State_in x l) eqn:E; [|reflexivity].
  apply State_in_In in E. contradiction.
Qed.

(** Each [do_<name>] is [_do_change_state] on the arguments tabulated by
    [allowed_curr_states] and [new_state], followed by what
    [do_exitControl] adds. *)
Lemma do_unfold : forall name id_data self,
  do_ begin_ end_ name id_data self =
  match _do_change_state begin_ end_ id_data name
          (allowed_curr_states name) (new_state name) self with
  | Raise e s => Raise e s
  | Return s => Return (after_change name s)
  end.
Proof.
  intros name id_data self; destruct name; simpl;
    unfold do_start, do_enable, do_disable, do_standby, do_enterControl,
           do_exitControl;
    simpl; try reflexivity;
    match goal with
    | |- ?x = _ => destruct x; reflexivity
    end.
Qed.

(** A state outside the list is refused before any hook runs. *)
Lemma change_state_refused : forall id_data name allowed target self,
  ~ In (state self) allowed ->
  _do_change_state begin_ end_ id_data name allowed target self =
  Raise (ExpectedError name (state self)) self.
Proof.
  intros id_data name allowed target self H.
  unfold _do_change_state. rewrite (State_in_false _ _ H). reflexivity.
Qed.

(** The sources of the specification's table include those of the code, so
    that a state outside the table is outside the code's list as well. *)
Lemma table_sources_cover : forall name s,
  In s (allowed_curr_states name) -> In s (table_sources name).
Proof.
  intros name s; destruct name; simpl; tauto.
Qed.

(** C1, on the code: [do_standby] refuses the state FAULT. The command raises
    ExpectedError before any hook runs and leaves the component in FAULT
    with nothing published, whereas the class documentation and the table
    of the specification list FAULT as a source of [standby]. *)
Theorem do_standby_refuses_fault :
  forall (id_data : CommandIdData D) (ss : Z) (ev : list Z) (die : bool) (u : U),
    do_standby begin_ end_ id_data (mkCsc FAULT ss ev die u) =
    Raise (ExpectedError standby FAULT) (mkCsc FAULT ss ev die u).
Proof.
  intros. unfold do_standby. apply change_state_refused. simpl.
  intros [H | []]. discriminate H.
Qed.

(** The part of C1 that the code does implement: from DISABLED the command
    goes through the hooks, and with hooks that return it ends in STANDBY. *)
Lemma do_standby_from_disabled :
  forall (id_data : CommandIdData D) self s1 s2,
    state self = DISABLED ->
    begin_ standby id_data self = Return s1 ->
    end_ standby id_data (set_state s1 STANDBY) = Return s2 ->
    do_standby begin_ end_ id_data self = Return (report_summary_state s2).
Proof.
  intros id_data self s1 s2 Hs Hb He.
  unfold do_standby, _do_change_state. rewrite Hs. simpl.
  rewrite Hb, He. reflexivity.
Qed.

(** C2 as amended: [fault] has no guard. From every state, OFFLINE
    included, it leaves the component in FAULT, sets the summary state to the
    value of FAULT and publishes that value as one more summary-state
    event. *)
Theorem fault_enters_fault_from_any_state :
  forall self : Csc U,
    state (fault self) = FAULT /\
    summary_state (fault self) = State_value FAULT /\
    evt_summaryState (fault self) = evt_summaryState self ++ [State_value FAULT] /\
    user (fault self) = user self.
Proof.
  intros self. unfold fault, report_summary_state, set_summary_state, set_state.
  simpl. repeat split.
Qed.

(** C3: a standard transition command issued in a state that is not among
    the allowed current states of the command raises ExpectedError; the
    component is left as it was, so the state keeps its value and no
    summary-state event is published, and no hook has run. *)
Theorem invalid_transition_rejected :
  forall (name : CmdName) (id_data : CommandIdData D) (self : Csc U),
    ~ In (state self) (allowed_curr_states name) ->
    do_ begin_ end_ name id_data self = Raise (ExpectedError name (state self)) self /\
    state (self_of (do_ begin_ end_ name id_data self)) = state self /\
    evt_summaryState (self_of (do_ begin_ end_ name id_data self)) =
      evt_summaryState self.
Proof.
  intros name id_data self H.
  assert (E : do_ begin_ end_ name id_data self =
              Raise (ExpectedError name (state self)) self).
  { rewrite do_unfold, (change_state_refused id_data name _ _ self H). reflexivity. }
  rewrite E. simpl. repeat split.
Qed.

(** C4: in an allowed state the pre-hook runs on the component as it was, and
    once it has returned the post-hook runs on the component with the state
    already set to the target. If the post-hook raises, the exception
    propagates, the state is the one the command found and the events are
    those the hooks left, nothing being published by the transition. If the
    post-hook returns, the state the component is in is published as one more
    summary-state event; it is the target state unless the post-hook itself
    assigned another one. *)
Theorem valid_transition_hook_protocol :
  forall (name : CmdName) (id_data : CommandIdData D) (self s1 : Csc U),
    In (state self) (allowed_curr_states name) ->
    begin_ name id_data self = Return s1 ->
    let mid := set_state s1 (new_state name) in
    state mid = new_state name /\
    evt_summaryState mid = evt_summaryState s1 /\
    match end_ name id_data mid with
    | Raise e s2 =>
        exists r,
          do_ begin_ end_ name id_data self = Raise e r /\
          state r = state self /\
          evt_summaryState r = evt_summaryState s2 /\
          user r = user s2
    | Return s2 =>
        exists r,
          do_ begin_ end_ name id_data self = Return r /\
          state r = state s2 /\
          (state s2 = state mid -> state r = new_state name) /\
          summary_state r = State_value (state r) /\
          evt_summaryState r = evt_summaryState s2 ++ [State_value (state r)] /\
          user r = user s2
    end.
Proof.
  intros name id_data self s1 Hin Hb mid.
  split; [reflexivity|]. split; [reflexivity|].
  assert (E : State_in (state self) (allowed_curr_states name) = true)
    by (apply State_in_In; exact Hin).
  rewrite do_unfold. unfold _do_change_state. rewrite E. simpl negb. cbv iota.
  rewrite Hb. fold mid.
  destruct (end_ name id_data mid) as [s2 | e s2].
  - exists (after_change name (report_summary_state s2)).
    split; [reflexivity|].
    destruct name; simpl; repeat split; auto.
  - exists (set_state s2 (state self)). repeat split.
Qed.

End Transitions.

(** C2 as stated fails: on a component in OFFLINE, [fault] is carried out.
    The state changes from OFFLINE to FAULT and the event is published. *)
Lemma fault_from_offline_is_carried_out :
  state (csc_in OFFLINE) = OFFLINE /\
  state (fault (csc_in OFFLINE)) = FAULT /\
  state (fault (csc_in OFFLINE)) <> state (csc_in OFFLINE) /\
  evt_summaryState (fault (csc_in OFFLINE)) = [3%Z].
Proof.
  repeat split. simpl. discriminate.
Qed.

(** [enable] in STANDBY, with the hooks of the base class. *)
Lemma invalid_transition_rejected_witness :
  do_ (@begin_default unit unit) (@end_default unit unit) enable no_data (csc_in STANDBY)
    = Raise (ExpectedError enable STANDBY) (csc_in STANDBY) /\
  state (self_of (do_ (@begin_default unit unit) (@end_default unit unit) enable
                      no_data (csc_in STANDBY))) = STANDBY /\
  evt_summaryState (self_of (do_ (@begin_default unit unit) (@end_default unit unit)
                                 enable no_data (csc_in STANDBY))) = [].
Proof.
  apply (@invalid_transition_rejected unit unit (@begin_default unit unit)
           (@end_default unit unit) enable no_data (csc_in STANDBY)).
  simpl. intros [H | []]. discriminate H.
Defined.

(** [start] in STANDBY, with the hooks of the base class: DISABLED is
    published. *)
Lemma valid_transition_hook_protocol_witness :
  exists r,
    do_ (@begin_default unit unit) (@end_default unit unit) start no_data (csc_in STANDBY)
      = Return r /\
    state r = DISABLED /\
    evt_summaryState r = [1%Z].
Proof.
  destruct (@valid_transition_hook_protocol unit unit (@begin_default unit unit)
              (@end_default unit unit) start no_data (csc_in STANDBY) (csc_in STANDBY))
    as [_ [_ H]].
  - simpl. left. reflexivity.
  - reflexivity.
  - simpl in H. destruct H as [r [H1 [H2 [H3 [H4 [H5 H6]]]]]].
    exists r. split; [exact H1|]. split; [apply H3; reflexivity|].
    rewrite H5, H2. reflexivity.
Defined.

End BaseCscFacts.

(* ================================================================== *)
(** * Properties of the utilities                                       *)
(* ================================================================== *)

Module BaseFacts.

Import Base.
Open Scope Z_scope.

(** ** [index_generator] *)

Lemma default_generator_made :
  index_generator 1 MAX_SAL_INDEX None = inr default_generator.
Proof. reflexivity. Qed.

Lemma after_succ : forall k g, after (N.succ k) g = snd (next (after k g)).
Proof. intros k g. unfold after. rewrite N.iter_succ. reflexivity. Qed.

Lemma after_succ_r : forall k g, after (N.succ k) g = after k (snd (next g)).
Proof. intros k g. unfold after. rewrite N.iter_succ_r. reflexivity. Qed.

Lemma after_bounds : forall k g,
  imin (after k g) = imin g /\ imax (after k g) = imax g.
Proof.
  intros k g. induction k as [|k IH] using N.peano_ind.
  - split; reflexivity.
  - rewrite after_succ. simpl. exact IH.
Qed.

(** The generator keeps the value it has just yielded in [index]. *)
Lemma index_after_succ : forall k g, index (after (N.succ k) g) = draw k g.
Proof. intros k g. rewrite after_succ. reflexivity. Qed.

(** The value that follows a value [v]: [v + 1], or [imin] after [imax]. *)
Lemma draw_succ : forall k g,
  draw (N.succ k) g =
  if draw k g + 1 >? imax g then imin g else draw k g + 1.
Proof.
  intros k g. unfold draw at 1. unfold next at 1.
  rewrite index_after_succ. destruct (after_bounds (N.succ k) g) as [-> ->].
  reflexivity.
Qed.

(** Every value yielded lies between the bounds. *)
Lemma draw_in_bounds : forall k g,
  imin g <= imax g -> imin g - 1 <= index g ->
  imin g <= draw k g <= imax g.
Proof.
  intros k g Hb Hi. induction k as [|k IH] using N.peano_ind.
  - unfold draw, after, next; simpl.
    destruct (index g + 1 >? imax g) eqn:E; simpl; lia.
  - rewrite draw_succ. destruct (draw k g + 1 >? imax g) eqn:E; lia.
Qed.

(** The value of draw number [k] in closed form. *)
Lemma draw_closed_form : forall k g,
  imin g <= imax g -> imin g - 1 <= index g <= imax g ->
  draw k g =
  imin g + (index g - imin g + 1 + Z.of_N k) mod (imax g - imin g + 1).
Proof.
  intros k. induction k as [|k IH] using N.peano_ind; intros g Hb Hi.
  - unfold draw, after, next; simpl. rewrite Z.add_0_r.
    destruct (index g + 1 >? imax g) eqn:E; simpl.
    + assert (index g = imax g) by lia.
      replace (index g - imin g + 1) with (imax g - imin g + 1) by lia.
      rewrite Z.mod_same by lia. lia.
    + rewrite Z.mod_small by lia. lia.
  - unfold draw. rewrite after_succ_r. fold (draw k (snd (next g))).
    rewrite IH; unfold next; simpl.
    + destruct (index g + 1 >? imax g) eqn:E.
      * assert (index g = imax g) by lia.
        f_equal.
        replace (index g - imin g + 1 + Z.of_N (N.succ k))
          with (imin g - imin g + 1 + Z.of_N k + 1 * (imax g - imin g + 1)) by lia.
        rewrite Z.mod_add by lia. reflexivity.
      * f_equal. f_equal. lia.
    + exact Hb.
    + destruct (index g + 1 >? imax g) eqn:E; lia.
Qed.

(** C8 as stated fails at the wrap: draw number 2^31 - 2 of the default
    generator is MAX_SAL_INDEX and the next draw is 1, which is smaller. *)
Lemma index_generator_wraps_around :
  index_generator 1 MAX_SAL_INDEX None = inr default_generator /\
  draw 2147483646 default_generator = 2147483647 /\
  draw 2147483647 default_generator = 1 /\
  ~ (draw 2147483646 default_generator < draw 2147483647 default_generator).
Proof.
  assert (H1 : draw 2147483646 default_generator = 2147483647).
  { rewrite draw_closed_form by (simpl; unfold MAX_SAL_INDEX; simpl; lia).
    reflexivity. }
  assert (H2 : draw 2147483647 default_generator = 1).
  { rewrite draw_closed_form by (simpl; unfold MAX_SAL_INDEX; simpl; lia).
    reflexivity. }
  split; [reflexivity|]. split; [exact H1|]. split; [exact H2|].
  rewrite H1, H2. lia.
Qed.

(** C8 as amended: every value drawn from the sequence-number generator lies
    between 1 and MAX_SAL_INDEX; the value that follows [v] is [v + 1] when
    [v] is below MAX_SAL_INDEX, so that it is strictly greater, and it is 1
    when [v] is MAX_SAL_INDEX. *)
Theorem index_generator_increases_until_wrap :
  forall (k : N),
    let v := draw k default_generator in
    let v' := draw (N.succ k) default_generator in
    1 <= v <= MAX_SAL_INDEX /\
    (v < MAX_SAL_INDEX -> v' = v + 1 /\ v < v') /\
    (v = MAX_SAL_INDEX -> v' = 1).
Proof.
  intros k v v'.
  assert (Hb : 1 <= v <= MAX_SAL_INDEX).
  { apply (draw_in_bounds k default_generator); simpl;
      unfold MAX_SAL_INDEX; simpl; lia. }
  assert (Hs : v' = if v + 1 >? MAX_SAL_INDEX then 1 else v + 1).
  { unfold v', v. rewrite draw_succ. reflexivity. }
  split; [exact Hb|]. split.
  - intro Hlt. destruct (v + 1 >? MAX_SAL_INDEX) eqn:E; lia.
  - intro Heq. destruct (v + 1 >? MAX_SAL_INDEX) eqn:E; lia.
Qed.

(** ** Character sets *)

Ltac by_cases_on_char c :=
  destruct c as [[|] [|] [|] [|] [|] [|] [|] [|]];
  vm_compute; intros; try reflexivity; try discriminate; try tauto.

Lemma name_char_not_colon : forall c, name_char c = true -> Ascii.eqb c ":" = false.
Proof. intro c. by_cases_on_char c. Qed.

Lemma name_char_not_newline : forall c, name_char c = true -> Ascii.eqb c newline = false.
Proof. intro c. by_cases_on_char c. Qed.

Lemma digit_not_newline : forall c, digit c = true -> Ascii.eqb c newline = false.
Proof. intro c. by_cases_on_char c. Qed.

Lemma name_start_name_char : forall c, name_start c = true -> name_char c = true.
Proof. intro c. by_cases_on_char c. Qed.

Lemma whitespace_not_name_start : forall c, whitespace c = true -> name_start c = false.
Proof. intro c. by_cases_on_char c. Qed.

Lemma at_dollar_cons : forall c u,
  Ascii.eqb c newline = false -> at_dollar (c :: u) = false.
Proof.
  intros c u H. unfold at_dollar. destruct u; [exact H | reflexivity].
Qed.

(** ** Longest prefixes *)

Lemma take_drop_while : forall p s, take_while p s ++ drop_while p s = s.
Proof.
  intros p s. induction s as [|c s IH]; simpl; [reflexivity|].
  destruct (p c); simpl; [rewrite IH|]; reflexivity.
Qed.

Lemma take_while_all : forall p s, forallb p (take_while p s) = true.
Proof.
  intros p s. induction s as [|c s IH]; simpl; [reflexivity|].
  destruct (p c) eqn:E; simpl; [rewrite E, IH|]; reflexivity.
Qed.

Lemma drop_while_head : forall p s c u, drop_while p s = c :: u -> p c = false.
Proof.
  intros p s. induction s as [|a s IH]; simpl; intros c u H; [discriminate H|].
  destruct (p a) eqn:E.
  - exact (IH _ _ H).
  - injection H as -> _. exact E.
Qed.

(** A text is cut in one way only after a run of [p] that nothing in [p]
    follows. *)
Lemma while_app : forall p a rest,
  forallb p a = true ->
  match rest with [] => True | c :: _ => p c = false end ->
  take_while p (a ++ rest) = a /\ drop_while p (a ++ rest) = rest.
Proof.
  intros p a rest Ha Hr. induction a as [|c a IH]; simpl in *.
  - destruct rest as [|c r]; simpl; [split; reflexivity|].
    rewrite Hr. split; reflexivity.
  - apply andb_true_iff in Ha as [Hc Ha]. rewrite Hc.
    destruct (IH Ha) as [-> ->]. split; reflexivity.
Qed.

Lemma consumed_app : forall a rest : str, consumed (a ++ rest) rest = a.
Proof.
  intros a rest. unfold consumed. rewrite length_app.
  replace (List.length a + List.length rest - List.length rest)%nat
    with (List.length a + 0)%nat by lia.
  rewrite firstn_app_2. simpl. apply app_nil_r.
Qed.

Lemma consumed_drop_while : forall p s, consumed s (drop_while p s) = take_while p s.
Proof.
  intros p s. rewrite <- (take_drop_while p s) at 1. apply consumed_app.
Qed.

(** ** The matcher commits to the longest run *)

(** When the rest of the pattern cannot start with a character of the set,
    backtracking into a greedy repetition never helps. *)
Lemma star_commit : forall (R : Type) p (k : str -> option R),
  (forall c u, p c = true -> k (c :: u) = None) ->
  forall s, star p s k = k (drop_while p s).
Proof.
  intros R p k Hk s. induction s as [|c s IH]; simpl; [reflexivity|].
  destruct (p c) eqn:E; [|reflexivity].
  rewrite IH. destruct (k (drop_while p s)) eqn:F; [reflexivity|].
  apply Hk. exact E.
Qed.

Lemma name_to_name_index_parse : forall s, name_to_name_index s = parse s.
Proof.
  intros s. unfold name_to_name_index, re_match, _NAME_REGEX, parse.
  destruct s as [|c s']; [reflexivity|].
  simpl backtrack.
  destruct (name_start c) eqn:Hc; [|reflexivity].
  rewrite star_commit.
  2:{ intros c0 u H0. rewrite (name_char_not_colon c0 H0).
      rewrite (at_dollar_cons c0 u (name_char_not_newline c0 H0)). reflexivity. }
  assert (Hname : consumed (c :: s') (drop_while name_char s')
                  = c :: take_while name_char s').
  { rewrite <- (take_drop_while name_char s') at 1.
    exact (consumed_app (c :: take_while name_char s') (drop_while name_char s')). }
  rewrite Hname. clear Hname.
  set (name := c :: take_while name_char s').
  destruct (drop_while name_char s') as [|c0 [|c1 t]].
  - reflexivity.
  - unfold at_dollar.
    destruct (Ascii.eqb c0 ":"); destruct (Ascii.eqb c0 "010"); reflexivity.
  - destruct (Ascii.eqb c0 ":"); simpl andb; cbv iota.
    + destruct (digit c1) eqn:Hd.
      * rewrite star_commit.
        2:{ intros c2 u H2.
            rewrite (at_dollar_cons c2 u (digit_not_newline c2 H2)). reflexivity. }
        assert (Hidx : consumed (c1 :: t) (drop_while digit t)
                       = c1 :: take_while digit t).
        { rewrite <- (take_drop_while digit t) at 1.
          exact (consumed_app (c1 :: take_while digit t) (drop_while digit t)). }
        rewrite Hidx. clear Hidx.
        destruct (at_dollar (drop_while digit t)); [reflexivity|].
        destruct (at_dollar (c0 :: c1 :: t)); reflexivity.
      * destruct (at_dollar (c0 :: c1 :: t)); reflexivity.
    + destruct (at_dollar (c0 :: c1 :: t)); reflexivity.
Qed.

(** ** What [parse] accepts *)

Lemma at_dollar_true : forall s, at_dollar s = true -> s = [] \/ s = [newline].
Proof.
  intros [|c [|c' u]]; simpl; intro H.
  - left; reflexivity.
  - right. apply Ascii.eqb_eq in H. subst c. reflexivity.
  - discriminate H.
Qed.

Lemma valid_name_inv : forall name,
  valid_name name = true ->
  exists c t, name = c :: t /\ name_start c = true /\ forallb name_char t = true.
Proof.
  intros [|c t]; simpl; intro H; [discriminate H|].
  apply andb_true_iff in H as [H1 H2]. exists c, t. auto.
Qed.

Lemma is_index_inv : forall d,
  is_index d = true ->
  exists d0 t, d = d0 :: t /\ digit d0 = true /\ forallb digit t = true.
Proof.
  intros [|d0 t]; simpl; intro H; [discriminate H|].
  apply andb_true_iff in H as [H1 H2]. exists d0, t. auto.
Qed.

Lemma parse_name : forall name,
  valid_name name = true -> parse name = inr (name, 0).
Proof.
  intros name H. destruct (valid_name_inv name H) as [c [t [-> [Hc Ht]]]].
  unfold parse. rewrite Hc.
  destruct (while_app name_char t [] Ht I) as [E1 E2].
  rewrite app_nil_r in E1, E2. rewrite E1, E2. reflexivity.
Qed.

Lemma parse_name_index : forall name d tail,
  valid_name name = true -> is_index d = true ->
  tail = [] \/ tail = [newline] ->
  parse (name ++ ":"%char :: d ++ tail) = inr (name, int d).
Proof.
  intros name d tail Hn Hd Htail.
  destruct (valid_name_inv name Hn) as [c [t [-> [Hc Ht]]]].
  destruct (is_index_inv d Hd) as [d0 [u [-> [Hd0 Hu]]]].
  simpl app. unfold parse. rewrite Hc.
  destruct (while_app name_char t (":"%char :: d0 :: u ++ tail) Ht eq_refl)
    as [E1 E2].
  rewrite E1, E2. simpl Ascii.eqb. rewrite Hd0. simpl andb. cbv iota.
  assert (Ht' : match tail with [] => True | x :: _ => digit x = false end).
  { destruct Htail as [-> | ->]; [exact I | reflexivity]. }
  destruct (while_app digit u tail Hu Ht') as [F1 F2].
  rewrite F1, F2.
  destruct Htail as [-> | ->]; reflexivity.
Qed.

Lemma parse_leading : forall c s, name_start c = false -> parse (c :: s) = inl mkValueError.
Proof. intros c s H. unfold parse. rewrite H. reflexivity. Qed.

(** Whatever [parse] accepts is a name, or a name, a colon and an index,
    with at most one newline after it. *)
Lemma parse_accepts : forall s n i,
  parse s = inr (n, i) ->
  valid_name n = true /\
  ((i = 0 /\ (s = n \/ s = n ++ [newline])) \/
   (exists d, is_index d = true /\ i = int d /\
              (s = n ++ ":"%char :: d \/ s = n ++ ":"%char :: d ++ [newline]))).
Proof.
  intros s n i. unfold parse.
  destruct s as [|c s']; [discriminate|].
  destruct (name_start c) eqn:Hc; [|discriminate].
  pose proof (take_drop_while name_char s') as Hs.
  pose proof (take_while_all name_char s') as Hall.
  set (tw := take_while name_char s') in *.
  set (rest := drop_while name_char s') in *.
  assert (Hv : valid_name (c :: tw) = true) by (simpl; rewrite Hc, Hall; reflexivity).
  assert (Hwithout :
    (if at_dollar rest then inr (c :: tw, 0) else inl mkValueError)
      = inr (n, i) ->
    valid_name n = true /\
    ((i = 0 /\ (c :: s' = n \/ c :: s' = n ++ [newline])) \/
     (exists d, is_index d = true /\ i = int d /\
        (c :: s' = n ++ ":"%char :: d \/ c :: s' = n ++ ":"%char :: d ++ [newline])))).
  { destruct (at_dollar rest) eqn:Hd; [|discriminate].
    intro H. injection H as <- <-. split; [exact Hv|]. left. split; [reflexivity|].
    rewrite <- Hs. destruct (at_dollar_true rest Hd) as [-> | ->].
    - left. rewrite app_nil_r. reflexivity.
    - right. reflexivity. }
  destruct rest as [|c0 [|d0 t]] eqn:Hrest; try exact Hwithout.
  destruct (Ascii.eqb c0 ":" && digit d0) eqn:Hcd; [|exact Hwithout].
  apply andb_true_iff in Hcd as [Hc0 Hd0]. apply Ascii.eqb_eq in Hc0. subst c0.
  destruct (at_dollar (drop_while digit t)) eqn:Hd; [|exact Hwithout].
  intro H. injection H as <- <-. split; [exact Hv|]. right.
  exists (d0 :: take_while digit t).
  split; [simpl; rewrite Hd0, (take_while_all digit t); reflexivity|].
  split; [reflexivity|].
  rewrite <- Hs. pose proof (take_drop_while digit t) as Ht.
  destruct (at_dollar_true _ Hd) as [E | E]; rewrite E in Ht.
  - left. rewrite app_nil_r in Ht. rewrite Ht. reflexivity.
  - right. simpl. rewrite Ht. reflexivity.
Qed.

Lemma forallb_snoc : forall (p : ascii -> bool) l,
  l <> [] -> forallb p l = true ->
  exists l' x, l = l' ++ [x] /\ p x = true.
Proof.
  intros p l Hne Hall. destruct (exists_last Hne) as [l' [x ->]].
  rewrite forallb_app in Hall. apply andb_true_iff in Hall as [_ Hx].
  simpl in Hx. rewrite andb_true_r in Hx. exists l', x. auto.
Qed.

Lemma valid_name_chars : forall n, valid_name n = true -> n <> [] /\ forallb name_char n = true.
Proof.
  intros n H. destruct (valid_name_inv n H) as [c [t [-> [Hc Ht]]]].
  split; [discriminate|]. simpl. rewrite (name_start_name_char c Hc), Ht. reflexivity.
Qed.

Lemma is_index_chars : forall d, is_index d = true -> d <> [] /\ forallb digit d = true.
Proof.
  intros d H. destruct (is_index_inv d H) as [d0 [t [-> [H0 Ht]]]].
  split; [discriminate|]. simpl. rewrite H0, Ht. reflexivity.
Qed.

Lemma parse_trailing_space : forall s, parse (s ++ [" "%char]) = inl mkValueError.
Proof.
  intros s. destruct (parse (s ++ [" "%char])) as [[]|[n i]] eqn:E; [reflexivity|].
  exfalso. apply parse_accepts in E as [Hv [[_ [H | H]] | [d [Hd [_ [H | H]]]]]].
  - destruct (valid_name_chars n Hv) as [Hne Hall].
    destruct (forallb_snoc name_char n Hne Hall) as [l' [x [-> Hx]]].
    apply app_inj_tail in H as [_ <-]. discriminate Hx.
  - apply app_inj_tail in H as [_ H]. discriminate H.
  - destruct (is_index_chars d Hd) as [Hne Hall].
    destruct (forallb_snoc digit d Hne Hall) as [l' [x [-> Hx]]].
    change (n ++ ":"%char :: l' ++ [x]) with (n ++ (":"%char :: l') ++ [x]) in H.
    rewrite app_assoc in H.
    apply app_inj_tail in H as [_ <-]. discriminate Hx.
  - change (n ++ ":"%char :: d ++ [newline]) with (n ++ (":"%char :: d) ++ [newline]) in H.
    rewrite app_assoc in H.
    apply app_inj_tail in H as [_ H]. discriminate H.
Qed.

Lemma parse_not_index : forall name idx,
  valid_name name = true ->
  is_index idx = false ->
  (forall d, is_index d = true -> idx <> d ++ [newline]) ->
  parse (name ++ ":"%char :: idx) = inl mkValueError.
Proof.
  intros name idx Hn Hidx Hnl.
  destruct (valid_name_inv name Hn) as [c [t [-> [Hc Ht]]]].
  simpl app. unfold parse. rewrite Hc.
  destruct (while_app name_char t (":"%char :: idx) Ht eq_refl) as [E1 E2].
  rewrite E1, E2.
  destruct idx as [|d0 u]; [reflexivity|].
  simpl Ascii.eqb. destruct (digit d0) eqn:Hd0; simpl andb; cbv iota;
    [|reflexivity].
  destruct (at_dollar (drop_while digit u)) eqn:Hd; [|reflexivity].
  exfalso.
  pose proof (take_drop_while digit u) as Hu.
  pose proof (take_while_all digit u) as Hall.
  destruct (at_dollar_true _ Hd) as [E | E]; rewrite E in Hu.
  - rewrite app_nil_r in Hu. rewrite Hu in Hall.
    simpl in Hidx. rewrite Hd0, Hall in Hidx. discriminate Hidx.
  - apply (Hnl (d0 :: take_while digit u)).
    + simpl. rewrite Hd0, Hall. reflexivity.
    + simpl. rewrite Hu. reflexivity.
Qed.

(** The examples of the docstring of [name_to_name_index]. *)
Example name_to_name_index_doc :
  name_to_name_index (chars "Script") = inr (chars "Script", 0) /\
  name_to_name_index (chars "Script:0") = inr (chars "Script", 0) /\
  name_to_name_index (chars "Script:15") = inr (chars "Script", 15) /\
  name_to_name_index (chars " Script:15") = inl mkValueError /\
  name_to_name_index (chars "Script:15 ") = inl mkValueError /\
  name_to_name_index (chars "Script:") = inl mkValueError /\
  name_to_name_index (chars "Script:zero") = inl mkValueError.
Proof. repeat split. Qed.

(** C10: [name_to_name_index] returns [(name, 0)] for a text [name] and
    [(name, i)] for [name:i], where [i] is the value of the decimal digits
    after the colon. It raises ValueError for a text that starts with
    white space, for a text that ends with a space, for a name followed by
    a colon alone, and for a name and a colon followed by a text that is
    neither an index nor an index and one newline. It accepts one newline
    after the index, because [$] also matches just before a final
    newline. *)
Theorem name_to_name_index_spec :
  (forall name,
      valid_name name = true ->
      name_to_name_index name = inr (name, 0)) /\
  (forall name d,
      valid_name name = true -> is_index d = true ->
      name_to_name_index (name ++ ":"%char :: d) = inr (name, int d)) /\
  (forall c s,
      whitespace c = true ->
      name_to_name_index (c :: s) = inl mkValueError) /\
  (forall s,
      name_to_name_index (s ++ [" "%char]) = inl mkValueError) /\
  (forall name,
      valid_name name = true ->
      name_to_name_index (name ++ [":"%char]) = inl mkValueError) /\
  (forall name idx,
      valid_name name = true -> is_index idx = false ->
      (forall d, is_index d = true -> idx <> d ++ [newline]) ->
      name_to_name_index (name ++ ":"%char :: idx) = inl mkValueError) /\
  (forall name d,
      valid_name name = true -> is_index d = true ->
      name_to_name_index (name ++ ":"%char :: d ++ [newline]) = inr (name, int d)).
Proof.
  repeat split; intros; rewrite name_to_name_index_parse.
  - apply parse_name; assumption.
  - pose proof (parse_name_index name d [] H H0 (or_introl eq_refl)) as E.
    rewrite app_nil_r in E. exact E.
  - apply parse_leading. apply whitespace_not_name_start; assumption.
  - apply parse_trailing_space.
  - apply parse_not_index; try assumption; try reflexivity.
    intros d _ E. destruct d; discriminate E.
  - apply parse_not_index; assumption.
  - apply parse_name_index; auto.
Qed.

(** The first two draws of the default generator. *)
Lemma index_generator_increases_until_wrap_witness :
  draw 1 default_generator = draw 0 default_generator + 1 /\
  draw 0 default_generator < draw 1 default_generator.
Proof.
  apply (proj1 (proj2 (index_generator_increases_until_wrap 0))).
  vm_compute. reflexivity.
Defined.

(** A name, an index and a final newline. *)
Lemma name_to_name_index_spec_witness :
  name_to_name_index (chars "Script:15" ++ [newline]) = inr (chars "Script", 15).
Proof.
  exact (proj2 (proj2 (proj2 (proj2 (proj2 (proj2 name_to_name_index_spec)))))
           (chars "Script") (chars "15") eq_refl eq_refl).
Defined.

End BaseFacts.

(* ================================================================== *)
(** * Properties of the session                                         *)
(* ================================================================== *)

Module SalInfoFacts.

Import Base SalInfo.
Open Scope Z_scope.

(** ** Dictionaries *)

Section DictFacts.

Variable V : Type.

Lemma dict_get_some_truthy : forall (k : Z) (d : dict Z V) v,
  dict_get Z.eqb k d = Some v -> truthy d = true.
Proof. intros k [|kv d] v H; [discriminate H | reflexivity]. Qed.

Lemma dict_get_del_same : forall (k : Z) (d : dict Z V),
  dict_get Z.eqb k (dict_del Z.eqb k d) = None.
Proof.
  intros k d. unfold dict_get, dict_del.
  induction d as [|[k' v'] d IH]; simpl; [reflexivity|].
  destruct (Z.eqb k' k) eqn:E; simpl; [exact IH|].
  rewrite E. exact IH.
Qed.

Lemma dict_get_del_other : forall (k k0 : Z) (d : dict Z V),
  k0 <> k ->
  dict_get Z.eqb k0 (dict_del Z.eqb k d) = dict_get Z.eqb k0 d.
Proof.
  intros k k0 d Hne. unfold dict_get, dict_del.
  induction d as [|[k' v'] d IH]; simpl; [reflexivity|].
  destruct (Z.eqb k' k) eqn:E; simpl.
  - apply Z.eqb_eq in E. subst k'.
    destruct (Z.eqb k k0) eqn:F; [apply Z.eqb_eq in F; congruence | exact IH].
  - destruct (Z.eqb k' k0); [reflexivity | exact IH].
Qed.

End DictFacts.

Lemma str_eqb_eq : forall a b, str_eqb a b = true <-> a = b.
Proof.
  intros a b. unfold str_eqb. destruct (list_eq_dec ascii_dec a b); split;
    intro H; auto; discriminate H.
Qed.

Lemma store_same : forall a c h, store a c h a = c.
Proof. intros a c h. unfold store. rewrite Nat.eqb_refl. reflexivity. Qed.

Lemma store_other : forall a b c h, b <> a -> store a c h b = h b.
Proof.
  intros a b c h H. unfold store. destruct (Nat.eqb b a) eqn:E; [|reflexivity].
  apply Nat.eqb_eq in E. contradiction.
Qed.

Section SessionFacts.

Variables P T : Type.

(** ** [makeAckCmd] *)

Lemma len_gtb : forall (A : Type) (l : list A) n,
  (len l >? n) = true <-> len l > n.
Proof. intros A l n. rewrite Z.gtb_lt. lia. Qed.

Lemma AckCmdType_with_commands : forall self : SalInfo P T,
  command_names self <> [] ->
  AckCmdType self =
  inr (fun private_seqNum ack error result =>
         mkAckCmd private_seqNum ack error result []).
Proof.
  intros self H. unfold AckCmdType.
  destruct (command_names self) as [|n l]; [contradiction|]. reflexivity.
Qed.

(** Without commands the call cannot return: the length check comes first,
    then [AckCmdType] raises. *)
Lemma makeAckCmd_without_commands :
  forall (self : SalInfo P T) seq a err res trunc,
    command_names self = [] ->
    exists e, makeAckCmd self seq a err res trunc = inl e.
Proof.
  intros self seq a err res trunc H. unfold makeAckCmd, AckCmdType. rewrite H.
  destruct (len res >? MAX_RESULT_LEN); [destruct trunc|]; simpl; eauto.
Qed.

(** C7 as amended: on a component that has at least one command,
    [makeAckCmd] with a result of at most 256 characters returns an
    acknowledgement that carries the result unchanged; with a longer result
    it raises ValueError when [truncate_result] is false and returns an
    acknowledgement with exactly the first 256 characters when it is true. *)
Theorem makeAckCmd_result :
  forall (self : SalInfo P T) (seq : Z) (a : SalRetCode) (err : Z)
         (res : str) (trunc : bool),
    command_names self <> [] ->
    (len res <= 256 ->
       makeAckCmd self seq a err res trunc = inr (mkAckCmd seq a err res [])) /\
    (len res > 256 -> trunc = false ->
       makeAckCmd self seq a err res trunc = inl ValueError) /\
    (len res > 256 -> trunc = true ->
       makeAckCmd self seq a err res trunc
         = inr (mkAckCmd seq a err (firstn 256 res) []) /\
       len (firstn 256 res) = 256 /\
       exists rest, res = firstn 256 res ++ rest).
Proof.
  intros self seq a err res trunc Hc.
  unfold makeAckCmd. rewrite (AckCmdType_with_commands self Hc).
  unfold MAX_RESULT_LEN. split; [|split].
  - intro H. destruct (Z.gtb_spec (len res) 256); [lia | reflexivity].
  - intros H ->. destruct (Z.gtb_spec (len res) 256); [reflexivity | lia].
  - intros H ->. destruct (Z.gtb_spec (len res) 256); [|lia].
    split; [reflexivity|]. split.
    + unfold len in *. rewrite length_firstn. lia.
    + exists (skipn 256 res). symmetry. apply firstn_skipn.
Qed.

(** ** [_ackcmd_callback] *)

Lemma truthy_false : forall (A : Type) (l : list A), truthy l = false -> l = [].
Proof. intros A [|x l] H; [reflexivity | discriminate H]. Qed.

(** The identity test of the callback lets an acknowledgement through when
    its identity is empty or is the one of this session's domain. *)
Lemma identity_filter : forall (data : AckCmd) (self : SalInfo P T),
  truthy (identity data) && negb (str_eqb (identity data) (identity_ self)) = false
  <-> (identity data = [] \/ identity data = identity_ self).
Proof.
  intros data self. split.
  - intro H. apply andb_false_iff in H as [H | H].
    + left. apply truthy_false. exact H.
    + right. apply negb_false_iff in H. apply str_eqb_eq. exact H.
  - intros [H | H]; rewrite H.
    + reflexivity.
    + replace (str_eqb (identity_ self) (identity_ self)) with true
        by (symmetry; apply str_eqb_eq; reflexivity).
      apply andb_false_r.
Qed.

(** C6: the callback never raises (it is a total function of the sample and
    the session). A sample whose sequence number is not in the table of
    running commands, or whose identity is set and is not the identity of
    this session, leaves the session as it is. A sample that passes the
    identity test and whose sequence number is in the table is recorded in
    the [CommandInfo] found there; if it is terminal the entry is deleted
    from the table and the other entries stay, and if it is not terminal
    the table stays as it is. *)
Theorem ackcmd_callback_matching :
  forall (data : AckCmd) (self : SalInfo P T),
    (dict_get Z.eqb (private_seqNum data) (_running_cmds self) = None ->
       _ackcmd_callback data self = self) /\
    (identity data <> [] -> identity data <> identity_ self ->
       _ackcmd_callback data self = self) /\
    (forall a : nat,
       dict_get Z.eqb (private_seqNum data) (_running_cmds self) = Some a ->
       identity data = [] \/ identity data = identity_ self ->
       let self' := _ackcmd_callback data self in
       cmds self' a = mkCommandInfo (seq_num (cmds self a)) (Some data) /\
       (forall b, b <> a -> cmds self' b = cmds self b) /\
       (terminal (ack data) = true ->
          _running_cmds self' =
            dict_del Z.eqb (private_seqNum data) (_running_cmds self) /\
          dict_get Z.eqb (private_seqNum data) (_running_cmds self') = None /\
          forall k, k <> private_seqNum data ->
            dict_get Z.eqb k (_running_cmds self') =
            dict_get Z.eqb k (_running_cmds self)) /\
       (terminal (ack data) = false ->
          _running_cmds self' = _running_cmds self)).
Proof.
  intros data self. split; [|split].
  - intro Hnone. unfold _ackcmd_callback.
    destruct (negb (truthy (_running_cmds self))); [reflexivity|].
    destruct (truthy (identity data) &&
              negb (str_eqb (identity data) (identity_ self))); [reflexivity|].
    rewrite Hnone. reflexivity.
  - intros Hset Hother. unfold _ackcmd_callback.
    destruct (negb (truthy (_running_cmds self))); [reflexivity|].
    destruct (truthy (identity data) &&
              negb (str_eqb (identity data) (identity_ self))) eqn:E;
      [reflexivity|].
    apply identity_filter in E. destruct E; contradiction.
  - intros a Hget Hid self'. subst self'. unfold _ackcmd_callback.
    rewrite (dict_get_some_truthy _ _ _ _ Hget). simpl negb. cbv iota.
    apply identity_filter in Hid. rewrite Hid, Hget.
    unfold add_ackcmd.
    destruct (terminal (ack data)) eqn:Hterm; simpl.
    + split; [apply store_same|].
      split; [intros b Hb; apply store_other; exact Hb|].
      split; [intros _|intro H; discriminate H].
      split; [reflexivity|].
      split; [apply dict_get_del_same|].
      intros k Hk. apply dict_get_del_other. exact Hk.
    + split; [apply store_same|].
      split; [intros b Hb; apply store_other; exact Hb|].
      split; [intro H; discriminate H|intros _; reflexivity].
Qed.

(** ** The late-joiner data of [start] *)

Lemma last_n_skipn : forall (A : Type) (n : nat) (l : list A),
  last_n n l = skipn (List.length l - n) l.
Proof.
  intros A n l. unfold last_n. rewrite firstn_rev. apply rev_involutive.
Qed.

(** The slice [l[-k:]] is the last [min(len(l), k)] elements of [l]. *)
Lemma slice_last_last_n : forall (A : Type) (k : Z) (l : list A),
  0 < k ->
  slice_last k l = last_n (Nat.min (List.length l) (Z.to_nat k)) l.
Proof.
  intros A k l Hk. rewrite last_n_skipn. unfold slice_last, len.
  f_equal. lia.
Qed.

Section History.

Variable tai_of_reception : Z -> T.
Variable triggered : nat -> bool.
Variable take_cond : nat -> nat -> Z -> M (list (SampleData P T * SampleInfo)).
Variable DDS_READ_QUEUE_LEN : Z.

Local Abbreviation history_items' :=
  (history_items tai_of_reception triggered take_cond DDS_READ_QUEUE_LEN).
Local Abbreviation history_loop' :=
  (history_loop tai_of_reception triggered take_cond DDS_READ_QUEUE_LEN).
Local Abbreviation backlog' :=
  (backlog tai_of_reception triggered take_cond DDS_READ_QUEUE_LEN).

(** [_queue_data] is never called on an empty list. *)
Lemma history_items_nonempty : forall read_cond (reader : Reader P T) sd_list,
  history_items' read_cond reader = inr (Some sd_list) -> sd_list <> [].
Proof.
  intros read_cond reader sd_list. unfold history_items.
  destruct (volatile reader || negb (r_isopen reader) || negb (triggered read_cond));
    [discriminate|].
  destruct (take_history take_cond DDS_READ_QUEUE_LEN read_cond) as [e | data_list];
    [discriminate|].
  simpl. destruct (max_history reader >? 0); [|discriminate].
  destruct (slice_last _ _) as [|x l] eqn:E; simpl; [discriminate|].
  intro H. injection H as <-. discriminate.
Qed.

(** A reader that is volatile or closed is skipped, and so is every reader
    whose history is not positive: nothing is enqueued for them. *)
Lemma history_items_none : forall read_cond (reader : Reader P T),
  volatile reader = true \/ r_isopen reader = false \/ max_history reader <= 0 ->
  enqueued (history_items' read_cond reader) = [].
Proof.
  intros read_cond reader H. unfold history_items.
  destruct (volatile reader) eqn:Hv; [reflexivity|].
  destruct (r_isopen reader) eqn:Ho; [|reflexivity].
  destruct H as [H | [H | H]]; try discriminate H.
  simpl. destruct (triggered read_cond); simpl; [|reflexivity].
  destruct (take_history take_cond DDS_READ_QUEUE_LEN read_cond) as [e | data_list];
    [reflexivity|].
  simpl. destruct (Z.gtb_spec (max_history reader) 0); [lia | reflexivity].
Qed.

(** C9: in the replay of [start], an open reader that is not volatile and
    has [max_history > 0], with the backlog [L] of valid historical samples,
    gets exactly the last [min(len(L), max_history)] samples of [L] enqueued,
    in their order; a reader that is volatile, closed or has
    [max_history = 0] gets none; and when the loop completes every reader
    is the reader it was after the delivery of these samples. *)
Theorem history_replay :
  forall (read_cond : nat) (reader : Reader P T),
    (volatile reader = false -> r_isopen reader = true ->
     0 < max_history reader ->
     forall L : list (SampleData P T),
       backlog' read_cond = Some L ->
       enqueued (history_items' read_cond reader) =
       last_n (Nat.min (List.length L) (Z.to_nat (max_history reader))) L) /\
    (volatile reader = true \/ r_isopen reader = false \/ max_history reader = 0 ->
     enqueued (history_items' read_cond reader) = []) /\
    (forall items items' : list (nat * Reader P T),
       history_loop' true items = (Completed, items') ->
       items' =
       map (fun cr =>
              (fst cr,
               deliver (snd cr) (enqueued (history_items' (fst cr) (snd cr)))))
           items).
Proof.
  intros read_cond reader. split; [|split].
  - intros Hv Ho Hh L. unfold backlog, history_items. rewrite Hv, Ho. simpl.
    destruct (triggered read_cond); simpl.
    + destruct (take_history take_cond DDS_READ_QUEUE_LEN read_cond)
        as [e | data_list]; [discriminate|].
      intro H. injection H as <-. simpl.
      destruct (Z.gtb_spec (max_history reader) 0); [|lia].
      fold (valid_samples tai_of_reception data_list).
      rewrite <- (slice_last_last_n _ _ (valid_samples tai_of_reception data_list) Hh).
      destruct (slice_last (max_history reader)
                  (valid_samples tai_of_reception data_list)); reflexivity.
    + intro H. injection H as <-. reflexivity.
  - intros [H | [H | H]]; apply history_items_none; auto.
    right. right. lia.
  - clear read_cond reader. intros items.
    induction items as [|[c r] items IH]; intros items' H; simpl in H.
    + injection H as <-. reflexivity.
    + destruct (history_items' c r) as [e | batch] eqn:E; [discriminate H|].
      destruct (history_loop' true items) as [e rest] eqn:Hloop.
      injection H as -> <-. simpl. rewrite E.
      rewrite <- (IH rest eq_refl). f_equal. f_equal.
      destruct batch as [sd_list|]; simpl; [|reflexivity].
      pose proof (history_items_nonempty c r sd_list E) as Hne.
      destruct sd_list; [contradiction | reflexivity].
Qed.

(** Three samples in the backlog, the second one invalid: a reader with
    [max_history = 1] gets the last valid sample, a reader with
    [max_history = 2] the two valid ones, a reader with [max_history = 0]
    none. *)
Example late_joiner_demo :
  let items (h : Z) :=
    history_items (fun _ : Z => tt) (fun _ => true) demo_take 100 0%nat
                  (demo_reader h) in
  items 1 = inr (Some [mkSampleData 13 tt]) /\
  items 2 = inr (Some [mkSampleData 11 tt; mkSampleData 13 tt]) /\
  items 0 = inr None.
Proof. repeat split. Qed.

End History.

(** ** [close] *)

Lemma abort_idempotent : forall text c, abort text (abort text c) = abort text c.
Proof. intros text c. reflexivity. Qed.

(** [abort_items] aborts the commands at the addresses listed, once each
    as far as the outcome goes, and leaves the other ones alone. *)
Lemma abort_items_at : forall items h a,
  abort_items items h a =
  if existsb (Nat.eqb a) (map snd items)
  then abort (chars "shutting down") (h a)
  else h a.
Proof.
  intros items. induction items as [|[k b] items IH]; intros h a; simpl;
    [reflexivity|].
  rewrite IH. destruct (Nat.eqb a b) eqn:E; simpl.
  - apply Nat.eqb_eq in E. subst b. rewrite store_same.
    destruct (existsb (Nat.eqb a) (map snd items)); reflexivity.
  - apply Nat.eqb_neq in E. rewrite (store_other _ _ _ _ E). reflexivity.
Qed.

Lemma dict_popitem_snoc : forall (K V : Type) (d : dict K V) kv,
  dict_popitem (d ++ [kv]) = Some (kv, d).
Proof.
  intros K V d kv. unfold dict_popitem. rewrite rev_app_distr. simpl.
  rewrite rev_involutive. reflexivity.
Qed.

Lemma list_pop_snoc : forall (A : Type) (l : list A) x,
  list_pop (l ++ [x]) = Some (x, l).
Proof.
  intros A l x. unfold list_pop. rewrite rev_app_distr. simpl.
  rewrite rev_involutive. reflexivity.
Qed.

Lemma set_readers_same : forall self : SalInfo P T,
  set_readers (_readers self) self = self.
Proof. intros []. reflexivity. Qed.

Lemma set_writers_same : forall self : SalInfo P T,
  set_writers (_writers self) self = self.
Proof. intros []. reflexivity. Qed.

Section Close.

Variable reader_close : Reader P T -> option exn.
Variable writer_close : Writer -> option exn.

Local Abbreviation close_step' := (close_step reader_close writer_close).
Local Abbreviation step' := (step reader_close writer_close).
Local Abbreviation close' := (close reader_close writer_close).
Local Abbreviation interleave' := (interleave reader_close writer_close).
Local Abbreviation step2' := (step2 reader_close writer_close).
Local Abbreviation one_closes' := (one_closes reader_close writer_close).

Lemma finished_stays : forall n e (self : SalInfo P T),
  Nat.iter n step' (Finished e, self) = (Finished e, self).
Proof.
  intros n e self. induction n as [|n IH]; simpl; [reflexivity|].
  rewrite IH. reflexivity.
Qed.

Lemma iter_step : forall n pc (self : SalInfo P T),
  Nat.iter (S n) step' (pc, self) = Nat.iter n step' (close_step' pc self).
Proof. intros n pc self. rewrite Nat.iter_succ_r. reflexivity. Qed.

(** The loop over the writers: a writer fails to close and the call ends
    with its exception, or the loop comes to its end. *)
Lemma writers_run : forall ws (self : SalInfo P T) n,
  _writers self = ws ->
  (exists e s' w,
     In w ws /\ writer_close w = Some e /\
     Nat.iter (List.length ws + n) step' (close_from_writers self) =
     (Finished (Some e), s')) \/
  Nat.iter (List.length ws + n) step' (close_from_writers self) =
  Nat.iter n step' (close_from_writers (set_writers [] self)).
Proof.
  intros ws. induction ws as [|w ws IH] using rev_ind; intros self n Hw.
  - right. simpl. rewrite <- Hw, set_writers_same. reflexivity.
  - rewrite length_app. simpl List.length.
    replace (List.length ws + 1 + n)%nat with (S (List.length ws + n)) by lia.
    unfold close_from_writers at 1 2. rewrite Hw, list_pop_snoc.
    rewrite iter_step. simpl close_step.
    destruct (writer_close w) as [e|] eqn:E.
    + left. exists e, (close_finally (set_writers ws self)), w.
      split; [apply in_or_app; right; left; reflexivity|].
      split; [exact E | apply finished_stays].
    + destruct (IH (set_writers ws self) n eq_refl)
        as [[e [s' [w' [H1 [H2 H3]]]]] | H].
      * left. exists e, s', w'.
        split; [apply in_or_app; left; exact H1 | auto].
      * right. exact H.
Qed.

(** The loop over the readers, in the same way. *)
Lemma readers_run : forall rs (self : SalInfo P T) n,
  _readers self = rs ->
  (exists e s' c r,
     In (c, r) rs /\ reader_close r = Some e /\
     Nat.iter (List.length rs + n) step' (close_from_readers self) =
     (Finished (Some e), s')) \/
  Nat.iter (List.length rs + n) step' (close_from_readers self) =
  Nat.iter n step' (close_from_writers (set_readers [] self)).
Proof.
  intros rs. induction rs as [|[c r] rs IH] using rev_ind; intros self n Hr.
  - right. simpl. unfold close_from_readers. rewrite Hr. simpl.
    rewrite <- Hr, set_readers_same. reflexivity.
  - rewrite length_app. simpl List.length.
    replace (List.length rs + 1 + n)%nat with (S (List.length rs + n)) by lia.
    unfold close_from_readers at 1 2. rewrite Hr, dict_popitem_snoc.
    rewrite iter_step. simpl close_step.
    destruct (reader_close r) as [e|] eqn:E.
    + left. exists e, (close_finally (set_readers rs self)), c, r.
      split; [apply in_or_app; right; left; reflexivity|].
      split; [exact E | apply finished_stays].
    + destruct (IH (set_readers rs self) n eq_refl)
        as [[e [s' [c' [r' [H1 [H2 H3]]]]]] | H].
      * left. exists e, s', c', r'.
        split; [apply in_or_app; left; exact H1 | auto].
      * right. exact H.
Qed.

(** A call of [close] on an open session runs to its end: it ends with the
    exception of a topic that fails to close, or it returns and leaves the
    session [closed]. *)
Lemma close_runs : forall self : SalInfo P T,
  isopen self = true ->
  (exists e s',
     close' self = (Finished (Some e), s') /\
     ((exists c r, In (c, r) (_readers self) /\ reader_close r = Some e) \/
      (exists w, In w (_writers self) /\ writer_close w = Some e))) \/
  close' self = (Finished None, closed self).
Proof.
  intros self Hopen. unfold close.
  replace (3 + List.length (_readers self) + List.length (_writers self))%nat
    with (S (S (List.length (_readers self) + (List.length (_writers self) + 1))))
    by lia.
  rewrite iter_step. unfold close_step at 1 2. rewrite Hopen. simpl negb. cbv iota.
  rewrite iter_step. unfold close_step at 1 2.
  set (s2 := set_read_loop_task _ _).
  destruct (readers_run (_readers self) s2 (List.length (_writers self) + 1)
              eq_refl) as [[e [s' [c [r [H1 [H2 H3]]]]]] | ->].
  { left. exists e, s'. split; [exact H3|]. left. exists c, r. auto. }
  destruct (writers_run (_writers self) (set_readers [] s2) 1 eq_refl)
    as [[e [s' [w [H1 [H2 H3]]]]] | ->].
  { left. exists e, s'. split; [exact H3|]. right. exists w. auto. }
  right. vm_compute; reflexivity.
Qed.

(** What [close] leaves behind. *)
Lemma closed_facts : forall self : SalInfo P T,
  isopen (closed self) = false /\
  done (done_task (closed self)) = true /\
  _running_cmds (closed self) = [] /\
  cmds (closed self) = abort_items (rev (_running_cmds self)) (cmds self) /\
  (done_task self = Pending -> done_task (closed self) = Result).
Proof.
  intros []. unfold closed, close_finally. simpl.
  destruct done_task0; simpl; repeat split; intro H; discriminate H.
Qed.

(** No piece of [close] opens the session again or touches a completion
    signal that is set. *)
Lemma close_finally_keeps : forall self : SalInfo P T,
  isopen (close_finally self) = isopen self /\
  done (done_task (close_finally self)) = true /\
  (done (done_task self) = true -> done_task (close_finally self) = done_task self).
Proof.
  intros []. unfold close_finally. simpl.
  destruct done_task0; simpl; repeat split; intro H; discriminate H.
Qed.

Lemma close_from_writers_keeps : forall self : SalInfo P T,
  isopen (snd (close_from_writers self)) = isopen self /\
  (done (done_task self) = true ->
   done_task (snd (close_from_writers self)) = done_task self) /\
  (forall e, fst (close_from_writers self) = Finished e ->
             done (done_task (snd (close_from_writers self))) = true).
Proof.
  intros self. unfold close_from_writers.
  destruct (list_pop (_writers self)) as [[w rest]|].
  - destruct self; simpl. repeat split; auto. intros e H. discriminate H.
  - simpl fst. simpl snd.
    destruct (close_finally_keeps
                (set_registered false (abort_running_cmds self))) as [H1 [H2 H3]].
    rewrite H1. split; [destruct self; reflexivity|]. split.
    + intro Hd. rewrite H3; destruct self; simpl in *; auto.
    + intros e _. exact H2.
Qed.

Lemma close_from_readers_keeps : forall self : SalInfo P T,
  isopen (snd (close_from_readers self)) = isopen self /\
  (done (done_task self) = true ->
   done_task (snd (close_from_readers self)) = done_task self) /\
  (forall e, fst (close_from_readers self) = Finished e ->
             done (done_task (snd (close_from_readers self))) = true).
Proof.
  intros self. unfold close_from_readers.
  destruct (dict_popitem (_readers self)) as [[[c r] rest]|].
  - destruct self; simpl. repeat split; auto. intros e H. discriminate H.
  - apply close_from_writers_keeps.
Qed.

Lemma close_step_keeps : forall pc (self : SalInfo P T),
  (isopen self = false -> isopen (snd (close_step' pc self)) = false) /\
  (done (done_task self) = true ->
   done_task (snd (close_step' pc self)) = done_task self) /\
  ((forall e, pc = Finished e -> done (done_task self) = true) ->
   forall e, fst (close_step' pc self) = Finished e ->
             done (done_task (snd (close_step' pc self))) = true).
Proof.
  intros pc self. destruct pc as [| |r|w| |e0]; unfold close_step.
  - destruct (isopen self) eqn:Ho; simpl negb; cbv iota.
    + simpl. split; [intro H; discriminate H|]. split.
      * intros _. destruct self; reflexivity.
      * intros _ e H. discriminate H.
    + destruct (done_task self) eqn:Hd; simpl; repeat split; auto;
        intros; try discriminate; rewrite Hd; reflexivity.
  - set (s2 := set_read_loop_task _ _).
    destruct (close_from_readers_keeps s2) as [H1 [H2 H3]].
    rewrite H1. split; [destruct self; auto|]. split.
    + intro Hd. rewrite H2; destruct self; simpl in *; auto.
    + intros _. exact H3.
  - destruct (reader_close r).
    + destruct (close_finally_keeps self) as [H1 [H2 H3]]. simpl.
      rewrite H1. repeat split; auto.
    + destruct (close_from_readers_keeps self) as [H1 [H2 H3]].
      rewrite H1. repeat split; auto.
  - destruct (writer_close w).
    + destruct (close_finally_keeps self) as [H1 [H2 H3]]. simpl.
      rewrite H1. repeat split; auto.
    + destruct (close_from_writers_keeps self) as [H1 [H2 H3]].
      rewrite H1. repeat split; auto.
  - destruct (done_task self) eqn:Hd; simpl; repeat split; auto;
      intros; try discriminate; rewrite Hd; reflexivity.
  - simpl. split; [auto|]. split; [auto|].
    intros H e _. exact (H e0 eq_refl).
Qed.

(** A call that finds the session not open waits for the completion signal
    and changes nothing. *)
Lemma waits_step : forall pc (self : SalInfo P T),
  isopen self = false -> waits pc self ->
  snd (close_step' pc self) = self /\ waits (fst (close_step' pc self)) self.
Proof.
  intros pc self Ho [-> | [-> | [e [-> He]]]]; unfold close_step.
  - rewrite Ho. simpl negb. cbv iota.
    destruct (await (done_task self)) as [r|] eqn:E; simpl.
    + split; [reflexivity|]. right. right. exists r. auto.
    + split; [reflexivity|]. right. left. reflexivity.
  - destruct (await (done_task self)) as [r|] eqn:E; simpl.
    + split; [reflexivity|]. right. right. exists r. auto.
    + split; [reflexivity|]. right. left. reflexivity.
  - simpl. split; [reflexivity|]. right. right. exists e. auto.
Qed.

Lemma await_done : forall f e, await f = Some e -> done f = true.
Proof. intros f e H. destruct f; try reflexivity. discriminate H. Qed.

Lemma waits_keeps : forall pc (self self' : SalInfo P T),
  waits pc self ->
  (done (done_task self) = true -> done_task self' = done_task self) ->
  waits pc self'.
Proof.
  intros pc self self' [H | [H | [e [H He]]]] Hk.
  - left. exact H.
  - right. left. exact H.
  - right. right. exists e. split; [exact H|].
    rewrite (Hk (await_done _ _ He)). exact He.
Qed.

(** A call returns only once the completion signal is set. *)
Lemma iter_finished_done : forall n (self0 : SalInfo P T) pc self,
  Nat.iter n step' (Entry, self0) = (pc, self) ->
  forall e, pc = Finished e -> done (done_task self) = true.
Proof.
  intros n self0.
  assert (H : forall e, fst (Nat.iter n step' (Entry, self0)) = Finished e ->
              done (done_task (snd (Nat.iter n step' (Entry, self0)))) = true).
  { apply (Nat.iter_invariant n _ step'
             (fun c => forall e, fst c = Finished e ->
                                 done (done_task (snd c)) = true)).
    - intros [pc self] Hc e He. unfold step in *. simpl fst in *. simpl snd in *.
      destruct (close_step_keeps pc self) as [_ [_ H3]].
      apply (H3 (fun e' E => Hc e' E) e He).
    - intros e He. discriminate He. }
  intros pc self E e ->. rewrite E in H. exact (H e eq_refl).
Qed.

Lemma iter_stable : forall n m (c0 : ClosePoint P T * SalInfo P T) e self,
  Nat.iter n step' c0 = (Finished e, self) -> (n <= m)%nat ->
  Nat.iter m step' c0 = (Finished e, self).
Proof.
  intros n m c0 e self H Hle.
  replace m with ((m - n) + n)%nat by lia.
  rewrite Nat.iter_add, H. apply finished_stays.
Qed.

(** Whatever piece the event loop runs next, one call closes the session
    and the other one waits. *)
Lemma one_closes_step : forall (self0 : SalInfo P T) c b,
  isopen self0 = true -> one_closes' self0 c -> one_closes' self0 (step2' c b).
Proof.
  intros self0 [[p1 p2] self] b Hopen Hc. unfold one_closes in Hc.
  destruct Hc as [[-> [-> ->]] | [Ho Hc]].
  - (* the first piece of the first call that runs *)
    assert (E : close_step' Entry self0 =
                (Sleeping, set_guard_triggered true (set_isopen false self0))).
    { unfold close_step. rewrite Hopen. reflexivity. }
    unfold step2. destruct b; rewrite E; unfold one_closes; right;
      (split; [destruct self0; reflexivity|]).
    + left. split; [|left; reflexivity].
      exists 1%nat. simpl. unfold step. simpl fst. simpl snd. exact E.
    + right. split; [|left; reflexivity].
      exists 1%nat. simpl. unfold step. simpl fst. simpl snd. exact E.
  - destruct (close_step_keeps p1 self) as [K1 [K2 _]].
    destruct (close_step_keeps p2 self) as [L1 [L2 _]].
    unfold step2. destruct Hc as [[[n Hn] Hw] | [[n Hn] Hw]]; destruct b.
    + (* the closing call runs *)
      destruct (close_step' p1 self) as [p1' self'] eqn:E. simpl snd in *.
      unfold one_closes. right. split; [exact (K1 Ho)|]. left. split.
      * exists (S n). simpl. rewrite Hn. unfold step. simpl fst. simpl snd.
        exact E.
      * exact (waits_keeps p2 self self' Hw K2).
    + (* the waiting call runs *)
      destruct (waits_step p2 self Ho Hw) as [W1 W2].
      destruct (close_step' p2 self) as [p2' self'] eqn:E. simpl in W1, W2.
      subst self'. unfold one_closes. right. split; [exact Ho|]. left.
      split; [exists n; exact Hn | exact W2].
    + destruct (waits_step p1 self Ho Hw) as [W1 W2].
      destruct (close_step' p1 self) as [p1' self'] eqn:E. simpl in W1, W2.
      subst self'. unfold one_closes. right. split; [exact Ho|]. right.
      split; [exists n; exact Hn | exact W2].
    + destruct (close_step' p2 self) as [p2' self'] eqn:E. simpl snd in *.
      unfold one_closes. right. split; [exact (L1 Ho)|]. right. split.
      * exists (S n). simpl. rewrite Hn. unfold step. simpl fst. simpl snd.
        exact E.
      * exact (waits_keeps p1 self self' Hw L2).
Qed.

Lemma one_closes_interleave : forall (self0 : SalInfo P T) schedule,
  isopen self0 = true -> one_closes' self0 (interleave' schedule self0).
Proof.
  intros self0 schedule Hopen. unfold interleave.
  assert (H : forall c, one_closes' self0 c ->
                        one_closes' self0 (fold_left step2' schedule c)).
  { induction schedule as [|b schedule IH]; intros c Hc; simpl; [exact Hc|].
    apply IH. apply one_closes_step; assumption. }
  apply H. unfold one_closes. left. auto.
Qed.

Lemma done_await : forall f, done f = true -> exists e, await f = Some e.
Proof. intros f H. destruct f; simpl; eauto. discriminate H. Qed.

(** A call of [close] on a session that is not open and whose completion
    signal is set returns at once and leaves the session as it is. *)
Lemma close_again : forall self : SalInfo P T,
  isopen self = false -> done (done_task self) = true ->
  exists e, close' self = (Finished e, self) /\ await (done_task self) = Some e.
Proof.
  intros self Ho Hd. destruct (done_await _ Hd) as [e He]. exists e.
  split; [|exact He]. unfold close. simpl Nat.add. rewrite iter_step.
  unfold close_step. rewrite Ho, He. simpl negb. cbv iota.
  apply finished_stays.
Qed.

(** Both runs of a finished call end in the same session. *)
Lemma finished_runs_agree :
  forall n m (self0 : SalInfo P T) e1 e2 s1 s2,
    Nat.iter n step' (Entry, self0) = (Finished e1, s1) ->
    Nat.iter m step' (Entry, self0) = (Finished e2, s2) ->
    s1 = s2.
Proof.
  intros n m self0 e1 e2 s1 s2 H1 H2.
  destruct (Nat.le_ge_cases n m) as [Hle | Hle].
  - rewrite (iter_stable n m _ e1 s1 H1 Hle) in H2. congruence.
  - rewrite (iter_stable m n _ e2 s2 H2 Hle) in H1. congruence.
Qed.

Lemma waits_finished_done : forall pc (self : SalInfo P T) e,
  waits pc self -> pc = Finished e -> done (done_task self) = true.
Proof.
  intros pc self e [H | [H | [e' [H He]]]] Hpc; subst pc; try discriminate.
  exact (await_done _ _ He).
Qed.

(** After its first piece a call of [close] has marked the session as not
    open, and the mark stays. *)
Lemma iter_not_open : forall n (self0 : SalInfo P T),
  isopen self0 = true ->
  isopen (snd (Nat.iter (S n) step' (Entry, self0))) = false.
Proof.
  intros n self0 Hopen. induction n as [|n IH].
  - simpl. unfold step, close_step. simpl fst. simpl snd. rewrite Hopen.
    destruct self0; reflexivity.
  - change (Nat.iter (S (S n)) step' (Entry, self0))
      with (step' (Nat.iter (S n) step' (Entry, self0))).
    destruct (Nat.iter (S n) step' (Entry, self0)) as [pc s].
    unfold step. simpl fst in *. simpl snd in *.
    destruct (close_step_keeps pc s) as [K _]. exact (K IH).
Qed.

(** C5: a call of [close] on an open session runs to its end, and after it
    the session is not open and the completion signal [done_task] is set.
    When the call returns, which it does when no topic fails to close, the
    table of running commands is empty and every command that was in it is
    resolved with the Aborted acknowledgement whose result is
    "shutting down". A later call returns with the session unchanged. Of
    two calls that the event loop interleaves in any way, one closes and
    the other one waits: the session only goes through the states of a
    single call, a call returns only once the completion signal is set, and
    when both have returned the session is the one a single call leaves. *)
Theorem close_aborts_and_converges :
  forall self : SalInfo P T,
    isopen self = true ->
    exists (e : option exn) (after : SalInfo P T),
      close' self = (Finished e, after) /\
      isopen after = false /\
      done (done_task after) = true /\
      ((forall c r, In (c, r) (_readers self) -> reader_close r = None) ->
       (forall w, In w (_writers self) -> writer_close w = None) ->
       e = None) /\
      (e = None ->
       (done_task self = Pending -> done_task after = Result) /\
       _running_cmds after = [] /\
       (forall seq a, In (seq, a) (_running_cmds self) ->
          ackcmd (cmds after a) = Some (shutting_down_ack (cmds self a)))) /\
      (exists e', close' after = (Finished e', after) /\
                  await (done_task after) = Some e') /\
      (forall schedule p1 p2 s,
         interleave' schedule self = (p1, p2, s) ->
         (exists n, s = snd (Nat.iter n step' (Entry, self))) /\
         (forall e', p1 = Finished e' \/ p2 = Finished e' ->
                     done (done_task s) = true) /\
         (forall e1 e2, p1 = Finished e1 -> p2 = Finished e2 -> s = after)).
Proof.
  intros self Hopen.
  assert (Hrun : exists e after,
             close' self = (Finished e, after) /\
             ((forall c r, In (c, r) (_readers self) -> reader_close r = None) ->
              (forall w, In w (_writers self) -> writer_close w = None) ->
              e = None) /\
             (e = None -> after = closed self)).
  { destruct (close_runs self Hopen) as [[e [s' [H1 H2]]] | H].
    - exists (Some e), s'. split; [exact H1|]. split.
      + intros Hr Hw. exfalso.
        destruct H2 as [[c [r [Hin Hf]]] | [w [Hin Hf]]].
        * rewrite (Hr c r Hin) in Hf. discriminate Hf.
        * rewrite (Hw w Hin) in Hf. discriminate Hf.
      + intro H. discriminate H.
    - exists None, (closed self). auto. }
  destruct Hrun as [e [after [Hrun [Hok Hafter]]]].
  exists e, after.
  assert (Ho : isopen after = false).
  { pose proof (iter_not_open
                  (2 + List.length (_readers self) + List.length (_writers self))
                  self Hopen) as H.
    unfold close in Hrun. simpl Nat.add in *. rewrite Hrun in H. exact H. }
  assert (Hd : done (done_task after) = true).
  { unfold close in Hrun. exact (iter_finished_done _ self _ after Hrun e eq_refl). }
  split; [exact Hrun|]. split; [exact Ho|]. split; [exact Hd|].
  split; [exact Hok|]. split; [|split].
  - intro He. rewrite (Hafter He).
    destruct (closed_facts self) as [_ [_ [F3 [F4 F5]]]].
    split; [exact F5|]. split; [exact F3|].
    intros seq a Hin. rewrite F4, abort_items_at.
    assert (E : existsb (Nat.eqb a) (map snd (rev (_running_cmds self))) = true).
    { apply existsb_exists. exists a. split; [|apply Nat.eqb_refl].
      apply in_map_iff. exists (seq, a). split; [reflexivity|].
      apply in_rev in Hin. exact Hin. }
    rewrite E. reflexivity.
  - exact (close_again after Ho Hd).
  - intros schedule p1 p2 s Hs.
    pose proof (one_closes_interleave self schedule Hopen) as Hinv.
    rewrite Hs in Hinv. unfold one_closes in Hinv. unfold close in Hrun.
    destruct Hinv as [[-> [-> ->]] | [_ [[[n Hn] Hwait] | [[n Hn] Hwait]]]].
    + split; [exists 0%nat; reflexivity|]. split.
      * intros e' [H | H]; discriminate H.
      * intros e1 e2 H. discriminate H.
    + split; [exists n; rewrite Hn; reflexivity|]. split.
      * intros e' [H | H].
        -- exact (iter_finished_done n self p1 s Hn e' H).
        -- exact (waits_finished_done p2 s e' Hwait H).
      * intros e1 e2 H1 _. subst p1.
        exact (finished_runs_agree _ _ self _ _ _ _ Hn Hrun).
    + split; [exists n; rewrite Hn; reflexivity|]. split.
      * intros e' [H | H].
        -- exact (waits_finished_done p1 s e' Hwait H).
        -- exact (iter_finished_done n self p2 s Hn e' H).
      * intros e1 e2 _ H2. subst p2.
        exact (finished_runs_agree _ _ self _ _ _ _ Hn Hrun).
Qed.

End Close.

End SessionFacts.

(** ** The sessions of the examples *)

(** C7 as stated fails on a component without commands: the result is
    short enough, and the call raises RuntimeError instead of returning an
    acknowledgement. *)
Lemma makeAckCmd_raises_without_commands :
  len (@nil ascii) <= 256 /\
  makeAckCmd session_without_commands 1 CMD_COMPLETE 0 [] false =
  inl (RuntimeError "This component has no commands, so no ackcmd topic").
Proof. split; [discriminate | reflexivity]. Qed.

(** A short result on a component with a command. *)
Lemma makeAckCmd_result_witness :
  makeAckCmd demo_session 7 CMD_COMPLETE 0 (chars "ok") false =
  inr (mkAckCmd 7 CMD_COMPLETE 0 (chars "ok") []).
Proof.
  apply (proj1 (makeAckCmd_result Z unit demo_session 7 CMD_COMPLETE 0
                  (chars "ok") false ltac:(discriminate))).
  vm_compute. discriminate.
Defined.

(** A result of 300 characters is cut to 256 or refused. *)
Example makeAckCmd_long_result :
  let long := repeat "x"%char 300 in
  makeAckCmd demo_session 7 CMD_FAILED 1 long true =
    inr (mkAckCmd 7 CMD_FAILED 1 (repeat "x"%char 256) []) /\
  makeAckCmd demo_session 7 CMD_FAILED 1 long false = inl ValueError.
Proof. split; reflexivity. Qed.

(** The acknowledgements of the example session: a terminal one for command
    7 removes the entry, one in progress keeps it, one for a sequence
    number that is not running or from another identity is dropped. *)
Example ackcmd_callback_demo :
  let complete := mkAckCmd 7 CMD_COMPLETE 0 [] (chars "me") in
  let progress := mkAckCmd 7 CMD_INPROGRESS 0 [] [] in
  let unknown := mkAckCmd 9 CMD_COMPLETE 0 [] [] in
  let foreign := mkAckCmd 7 CMD_COMPLETE 0 [] (chars "you") in
  _running_cmds (_ackcmd_callback complete demo_session) = [(8, 1%nat)] /\
  cmds (_ackcmd_callback complete demo_session) 0%nat =
    mkCommandInfo 7 (Some complete) /\
  _running_cmds (_ackcmd_callback progress demo_session) =
    [(7, 0%nat); (8, 1%nat)] /\
  cmds (_ackcmd_callback progress demo_session) 0%nat =
    mkCommandInfo 7 (Some progress) /\
  _ackcmd_callback unknown demo_session = demo_session /\
  _ackcmd_callback foreign demo_session = demo_session.
Proof. repeat split. Qed.

(** A terminal acknowledgement of the running command 7. *)
Lemma ackcmd_callback_matching_witness :
  dict_get Z.eqb 7
    (_running_cmds
       (_ackcmd_callback (mkAckCmd 7 CMD_COMPLETE 0 [] (chars "me")) demo_session))
  = None.
Proof.
  destruct (ackcmd_callback_matching Z unit
              (mkAckCmd 7 CMD_COMPLETE 0 [] (chars "me")) demo_session)
    as [_ [_ H]].
  destruct (H 0%nat eq_refl (or_intror eq_refl)) as [_ [_ [Ht _]]].
  destruct (Ht eq_refl) as [_ [Hnone _]]. exact Hnone.
Defined.

(** A reader with [max_history = 1] on a backlog of two valid samples. *)
Lemma history_replay_witness :
  enqueued (history_items (fun _ : Z => tt) (fun _ => true) demo_take 100 0%nat
                          (demo_reader 1))
  = [mkSampleData 13 tt].
Proof.
  exact (proj1 (history_replay Z unit (fun _ : Z => tt) (fun _ => true) demo_take
                  100 0%nat (demo_reader 1))
           eq_refl eq_refl eq_refl
           [mkSampleData 11 tt; mkSampleData 13 tt] eq_refl).
Defined.

(** [close] on the example session, with topics that close well. *)
Lemma close_aborts_and_converges_witness :
  fst (close (fun _ => None) (fun _ => None) demo_session) = Finished None.
Proof.
  destruct (close_aborts_and_converges Z unit (fun _ => None) (fun _ => None)
              demo_session eq_refl)
    as [e [after [E [_ [_ [He _]]]]]].
  rewrite E, (He (fun _ _ _ => eq_refl) (fun _ _ => eq_refl)). reflexivity.
Defined.

Example close_demo :
  let after := snd (close (fun _ => None) (fun _ => None) demo_session) in
  isopen after = false /\
  done_task after = Result /\
  _running_cmds after = [] /\
  _readers after = [] /\ _writers after = [] /\
  cmds after 0%nat =
    mkCommandInfo 7 (Some (mkAckCmd 7 CMD_ABORTED 0 (chars "shutting down") [])) /\
  cmds after 1%nat =
    mkCommandInfo 8 (Some (mkAckCmd 8 CMD_ABORTED 0 (chars "shutting down") [])).
Proof. vm_compute. repeat split. Qed.

(** A reader that fails to close ends the call with its exception; the
    completion signal is set all the same, and the commands stay in the
    table. *)
Example close_failing_reader :
  let c := close (fun _ : Reader Z unit => Some (TopicError "close failed"))
                 (fun _ => None) demo_session in
  fst c = Finished (Some (TopicError "close failed")) /\
  isopen (snd c) = false /\
  done_task (snd c) = Result /\
  _running_cmds (snd c) = [(7, 0%nat); (8, 1%nat)].
Proof. vm_compute. repeat split. Qed.

End SalInfoFacts.

(* ================================================================== *)
(** * More about [index_generator]                                      *)
(* ================================================================== *)

Module GeneratorFacts.

Import Base BaseFacts.
Open Scope Z_scope.

(** The value [index_generator] starts from. *)
Local Abbreviation first_of imin i0 :=
  (match i0 with None => imin | Some i => i end).

Lemma index_generator_inr : forall imin imax i0 g,
  index_generator imin imax i0 = inr g ->
  imin < imax /\ imin <= first_of imin i0 <= imax /\
  g = mkIndexGen imin imax (first_of imin i0 - 1).
Proof.
  intros imin imax i0 g. unfold index_generator.
  destruct (Z.leb_spec imax imin); [discriminate|].
  destruct (Z.leb_spec imin (first_of imin i0)); simpl; [|discriminate].
  destruct (Z.leb_spec (first_of imin i0) imax); simpl; [|discriminate].
  intro E. injection E as <-. repeat split; assumption.
Qed.

(** [index_generator] raises ValueError exactly when the bounds are not
    increasing or the initial index is outside them; the generator it
    returns otherwise keeps the bounds and yields the initial index first
    ([imin] when none is given). *)
Theorem index_generator_checks_arguments :
  forall (imin imax : Z) (i0 : option Z),
    (index_generator imin imax i0 = inl mkValueError <->
     imax <= imin \/ first_of imin i0 < imin \/ imax < first_of imin i0) /\
    (forall g, index_generator imin imax i0 = inr g ->
       Base.imin g = imin /\ Base.imax g = imax /\
       draw 0 g = first_of imin i0).
Proof.
  intros imin imax i0. split.
  - unfold index_generator.
    destruct (Z.leb_spec imax imin); [split; auto|].
    destruct (Z.leb_spec imin (first_of imin i0)); simpl.
    + destruct (Z.leb_spec (first_of imin i0) imax); simpl.
      * split; [discriminate | lia].
      * split; auto.
    + split; auto.
  - intros g E. destruct (index_generator_inr _ _ _ _ E) as [H1 [H2 ->]].
    simpl. split; [reflexivity|]. split; [reflexivity|].
    unfold draw, after, next. simpl.
    destruct (Z.gtb_spec (first_of imin i0 - 1 + 1) imax); simpl; lia.
Qed.

(** The value of draw number [k] of a generator made by [index_generator]
    is [imin + (i0 - imin + k) mod (imax - imin + 1)]; it lies between the
    bounds. *)
Theorem index_generator_closed_form :
  forall (imin imax : Z) (i0 : option Z) (g : IndexGen) (k : N),
    index_generator imin imax i0 = inr g ->
    draw k g =
      imin + (first_of imin i0 - imin + Z.of_N k) mod (imax - imin + 1) /\
    imin <= draw k g <= imax.
Proof.
  intros imin imax i0 g k E.
  destruct (index_generator_inr _ _ _ _ E) as [H1 [H2 ->]].
  split.
  - rewrite draw_closed_form; simpl; try lia. f_equal. f_equal. lia.
  - apply (draw_in_bounds k (mkIndexGen imin imax (first_of imin i0 - 1)));
      simpl; lia.
Qed.

Lemma mod_eq_sub : forall a b m, 0 < m -> a mod m = b mod m -> (b - a) mod m = 0.
Proof.
  intros a b m Hm H. rewrite Zminus_mod, H, Z.sub_diag. apply Z.mod_0_l. lia.
Qed.

(** The values drawn repeat with period [imax - imin + 1] and not before:
    two draws less than a period apart are different. *)
Theorem index_generator_no_repeat_within_period :
  forall (imin imax : Z) (i0 : option Z) (g : IndexGen) (j k : N),
    index_generator imin imax i0 = inr g ->
    draw (k + Z.to_N (imax - imin + 1)) g = draw k g /\
    ((j < k)%N -> Z.of_N k - Z.of_N j < imax - imin + 1 ->
     draw j g <> draw k g).
Proof.
  intros imin imax i0 g j k E.
  destruct (index_generator_closed_form imin imax i0 g k E) as [Ek _].
  destruct (index_generator_closed_form imin imax i0 g j E) as [Ej _].
  destruct (index_generator_closed_form imin imax i0 g
              (k + Z.to_N (imax - imin + 1)) E) as [Ep _].
  destruct (index_generator_inr _ _ _ _ E) as [H1 [H2 _]].
  split.
  - rewrite Ep, Ek. f_equal.
    rewrite N2Z.inj_add, Z2N.id by lia.
    replace (first_of imin i0 - imin + (Z.of_N k + (imax - imin + 1)))
      with (first_of imin i0 - imin + Z.of_N k + 1 * (imax - imin + 1)) by lia.
    apply Z.mod_add. lia.
  - intros Hjk Hclose Heq. rewrite Ej, Ek in Heq.
    assert (Hm : (first_of imin i0 - imin + Z.of_N j) mod (imax - imin + 1) =
                 (first_of imin i0 - imin + Z.of_N k) mod (imax - imin + 1))
      by lia.
    apply mod_eq_sub in Hm; [|lia].
    replace (first_of imin i0 - imin + Z.of_N k -
             (first_of imin i0 - imin + Z.of_N j))
      with (Z.of_N k - Z.of_N j) in Hm by lia.
    rewrite Z.mod_small in Hm by lia. lia.
Qed.

(** The default generator: draw 5 is 6. *)
Lemma index_generator_closed_form_witness :
  draw 5 default_generator = 6 /\ 1 <= draw 5 default_generator <= MAX_SAL_INDEX.
Proof.
  exact (index_generator_closed_form 1 MAX_SAL_INDEX None default_generator 5
           eq_refl).
Defined.

(** The default generator: its first 2^31 - 1 values are pairwise
    different, here the first and the last of them. *)
Lemma index_generator_no_repeat_within_period_witness :
  draw 0 default_generator <> draw 2147483646 default_generator.
Proof.
  apply (proj2 (index_generator_no_repeat_within_period 1 MAX_SAL_INDEX None
                  default_generator 0 2147483646 eq_refl)).
  - reflexivity.
  - reflexivity.
Defined.

End GeneratorFacts.

(* ================================================================== *)
(** * More about names of components                                    *)
(* ================================================================== *)

Module NamingFacts.

Import Base BaseFacts Naming.
Open Scope Z_scope.

(** ** Decimal digits *)

Lemma digit_char_digit : forall d,
  0 <= d < 10 -> digit (digit_char d) = true /\ digit_value (digit_char d) = d.
Proof.
  intros d H.
  assert (C : d = 0 \/ d = 1 \/ d = 2 \/ d = 3 \/ d = 4 \/ d = 5 \/ d = 6 \/
              d = 7 \/ d = 8 \/ d = 9) by lia.
  repeat (destruct C as [-> | C]; [split; reflexivity|]).
  subst d. split; reflexivity.
Qed.

Lemma digit_value_range : forall c, digit c = true -> 0 <= digit_value c <= 9.
Proof.
  intros c. destruct c as [[|] [|] [|] [|] [|] [|] [|] [|]];
    vm_compute; intro H; try discriminate H; split; discriminate.
Qed.

Lemma int_nonneg_from : forall d acc,
  forallb digit d = true -> 0 <= acc ->
  0 <= fold_left (fun acc c => 10 * acc + digit_value c) d acc.
Proof.
  intros d. induction d as [|c d IH]; intros acc Hd Hacc; cbn [fold_left];
    [exact Hacc|].
  cbn [forallb] in Hd. apply andb_true_iff in Hd as [Hc Hd].
  apply IH; [exact Hd|]. pose proof (digit_value_range c Hc). lia.
Qed.

Lemma int_nonneg : forall d, forallb digit d = true -> 0 <= int d.
Proof. intros d H. unfold int. apply int_nonneg_from; [exact H | lia]. Qed.

(** The digits written for [n] in front of [acc] read as [n] followed by
    [acc]. *)
Lemma digits_of_value : forall fuel n acc,
  0 <= n < 10 ^ Z.of_nat fuel ->
  fold_left (fun acc c => 10 * acc + digit_value c) (digits_of fuel n acc) 0 =
  fold_left (fun acc c => 10 * acc + digit_value c) acc n.
Proof.
  intros fuel. induction fuel as [|fuel IH]; intros n acc Hn.
  - simpl in *. assert (n = 0) by lia. subst n. reflexivity.
  - cbn [digits_of].
    assert (Hmod : 0 <= n mod 10 < 10) by (apply Z.mod_pos_bound; lia).
    destruct (digit_char_digit (n mod 10) Hmod) as [_ Hv].
    pose proof (Z.div_mod n 10 ltac:(lia)) as Hdm.
    destruct (Z.eqb_spec (n / 10) 0) as [Hz | Hz].
    + cbn [fold_left]. rewrite Hv. f_equal. lia.
    + rewrite IH.
      * cbn [fold_left]. rewrite Hv. f_equal. lia.
      * split; [apply Z.div_pos; lia|].
        apply Z.div_lt_upper_bound; [lia|].
        rewrite Nat2Z.inj_succ, Z.pow_succ_r in Hn by lia. lia.
Qed.

Lemma digits_of_digits : forall fuel n acc,
  0 <= n -> forallb digit acc = true ->
  forallb digit (digits_of fuel n acc) = true.
Proof.
  intros fuel. induction fuel as [|fuel IH]; intros n acc Hn Hacc;
    [exact Hacc|].
  cbn [digits_of].
  assert (Hmod : 0 <= n mod 10 < 10) by (apply Z.mod_pos_bound; lia).
  destruct (digit_char_digit (n mod 10) Hmod) as [Hd _].
  assert (Hacc' : forallb digit (digit_char (n mod 10) :: acc) = true)
    by (cbn [forallb]; rewrite Hd, Hacc; reflexivity).
  destruct (n / 10 =? 0); [exact Hacc'|].
  apply IH; [apply Z.div_pos; lia | exact Hacc'].
Qed.

Lemma digits_of_nonempty : forall fuel n acc,
  acc <> [] -> digits_of fuel n acc <> [].
Proof.
  intros fuel. induction fuel as [|fuel IH]; intros n acc Hacc; [exact Hacc|].
  cbn [digits_of]. destruct (n / 10 =? 0); [discriminate|].
  apply IH. discriminate.
Qed.

Lemma enough_fuel : forall n,
  0 <= n -> n < 10 ^ Z.of_nat (S (Z.to_nat (Z.log2 n))).
Proof.
  intros n Hn. rewrite Nat2Z.inj_succ, Z2Nat.id by apply Z.log2_nonneg.
  destruct (Z.eq_dec n 0) as [-> | Hpos]; [reflexivity|].
  destruct (Z.log2_spec n ltac:(lia)) as [_ Hlt].
  apply Z.lt_le_trans with (1 := Hlt).
  apply Z.pow_le_mono_l. lia.
Qed.

(** Formatting a non-negative integer gives an index that [int] reads
    back. *)
Lemma format_int_read_back : forall n,
  0 <= n -> is_index (format_int n) = true /\ int (format_int n) = n.
Proof.
  intros n Hn. unfold format_int.
  destruct (Z.ltb_spec n 0); [lia|]. split.
  - pose proof (digits_of_digits (S (Z.to_nat (Z.log2 n))) n [] Hn eq_refl) as Hd.
    assert (Hne : digits_of (S (Z.to_nat (Z.log2 n))) n [] <> []).
    { cbn [digits_of]. destruct (n / 10 =? 0); [discriminate|].
      apply digits_of_nonempty. discriminate. }
    unfold is_index. destruct (digits_of _ n []); [contradiction | exact Hd].
  - unfold int. rewrite digits_of_value by (split; [lia | apply enough_fuel; lia]).
    reflexivity.
Qed.

(** ** What [name_to_name_index] accepts *)

(** [name_to_name_index] accepts nothing but a name, or a name, a colon and
    decimal digits, each with at most one newline at the end: the name it
    returns is such a name and starts the text, the index is not negative,
    and the name alone parses to itself with index 0. *)
Theorem name_to_name_index_accepts_only :
  forall (s n : str) (i : Z),
    name_to_name_index s = inr (n, i) ->
    valid_name n = true /\ 0 <= i /\
    ((i = 0 /\ (s = n \/ s = n ++ [newline])) \/
     (exists d, is_index d = true /\ i = int d /\
                (s = n ++ ":"%char :: d \/ s = n ++ ":"%char :: d ++ [newline]))) /\
    name_to_name_index n = inr (n, 0).
Proof.
  intros s n i H. rewrite name_to_name_index_parse in H.
  destruct (parse_accepts s n i H) as [Hv Hshape].
  split; [exact Hv|]. split; [|split; [exact Hshape|]].
  - destruct Hshape as [[-> _] | [d [Hd [-> _]]]]; [lia|].
    apply int_nonneg. apply is_index_chars. exact Hd.
  - rewrite name_to_name_index_parse. apply parse_name. exact Hv.
Qed.

(** The name found in [Test:12] parses alone. *)
Lemma name_to_name_index_accepts_only_witness :
  name_to_name_index (chars "Test") = inr (chars "Test", 0).
Proof.
  exact (proj2 (proj2 (proj2
           (name_to_name_index_accepts_only (chars "Test:12") (chars "Test") 12
              eq_refl)))).
Defined.

(** ** [name_index] and back *)

(** The text that [name_index] makes for a component with a well-formed
    name parses back with [name_to_name_index]: to the name and index 0 when
    the component is not indexed, to the name and the index when it is
    indexed and the index is not negative. For a negative index the text
    does not parse: ValueError. *)
Theorem name_index_round_trip :
  forall (name : str) (index : Z) (indexed : bool),
    valid_name name = true ->
    (indexed = false ->
     name_to_name_index (name_index name index indexed) = inr (name, 0)) /\
    (indexed = true -> 0 <= index ->
     name_to_name_index (name_index name index indexed) = inr (name, index)) /\
    (indexed = true -> index < 0 ->
     name_to_name_index (name_index name index indexed) = inl mkValueError).
Proof.
  intros name index indexed Hv. unfold name_index.
  split; [|split]; intros ->; rewrite name_to_name_index_parse.
  - apply parse_name. exact Hv.
  - intro Hi. destruct (format_int_read_back index Hi) as [Hd Hint].
    pose proof (parse_name_index name (format_int index) [] Hv Hd
                  (or_introl eq_refl)) as E.
    rewrite app_nil_r, Hint in E. exact E.
  - intro Hi. unfold format_int. destruct (Z.ltb_spec index 0); [|lia].
    apply parse_not_index; [exact Hv | reflexivity |].
    intros d Hd E. destruct (is_index_inv d Hd) as [d0 [t [-> [Hd0 _]]]].
    simpl in E. injection E as <- _. discriminate Hd0.
Qed.

(** The component [Test:12]. *)
Lemma name_index_round_trip_witness :
  name_to_name_index (name_index (chars "Test") 12 true) = inr (chars "Test", 12).
Proof.
  exact (proj1 (proj2 (name_index_round_trip (chars "Test") 12 true eq_refl))
           eq_refl ltac:(discriminate)).
Defined.

End NamingFacts.

(* ================================================================== *)
(** * More about the session                                            *)
(* ================================================================== *)

Module SessionFacts.

Import Base SalInfo SalInfoFacts Session.
Open Scope Z_scope.

(** ** Dictionaries: assignment and lookup *)

Section MoreDictFacts.

Variable V : Type.

Lemma dict_has_get : forall (k : nat) (d : dict nat V),
  dict_has Nat.eqb k d = false <-> dict_get Nat.eqb k d = None.
Proof.
  intros k d. unfold dict_has, dict_get.
  induction d as [|[k' v'] d IH]; simpl; [tauto|].
  destruct (Nat.eqb k' k); simpl; [split; discriminate | exact IH].
Qed.



Lemma dict_set_keys : forall (k : nat) (v : V) (d : dict nat V),
  dict_has Nat.eqb k d = true -> map fst (dict_set Nat.eqb k v d) = map fst d.
Proof.
  intros k v d. unfold dict_has.
  induction d as [|[k' v'] d IH]; simpl; [discriminate|].
  destruct (Nat.eqb k' k); simpl; [reflexivity|].
  intro H. rewrite (IH H). reflexivity.
Qed.


Lemma dict_get_set_other : forall (k k0 : nat) (v : V) (d : dict nat V),
  k0 <> k ->
  dict_get Nat.eqb k0 (dict_set Nat.eqb k v d) = dict_get Nat.eqb k0 d.
Proof.
  intros k k0 v d Hne. unfold dict_get.
  induction d as [|[k' v'] d IH]; simpl.
  - destruct (Nat.eqb_spec k k0); [congruence | reflexivity].
  - destruct (Nat.eqb_spec k' k) as [-> | Hk]; simpl.
    + destruct (Nat.eqb_spec k k0); [congruence | reflexivity].
    + destruct (Nat.eqb k' k0); [reflexivity | exact IH].
Qed.

End MoreDictFacts.


Section RegistryFacts.

Variables P T : Type.

(** ** [add_reader] *)


(** ** [start], [started] and [assert_started] *)

Section StartFacts.

Variable tai_of_reception : Z -> T.
Variable triggered : nat -> bool.
Variable take_cond : nat -> nat -> Z -> M (list (SampleData P T * SampleInfo)).
Variable DDS_READ_QUEUE_LEN : Z.

Local Abbreviation start' :=
  (start tai_of_reception triggered take_cond DDS_READ_QUEUE_LEN).
Local Abbreviation history_loop' :=
  (history_loop tai_of_reception triggered take_cond DDS_READ_QUEUE_LEN).

(** The loop over the readers keeps the conditions and their order,
    however it ends, and on an open session it is never cut short. *)
Lemma history_loop_keys : forall b items,
  map fst (snd (history_loop' b items)) = map fst items /\
  (b = true -> fst (history_loop' b items) <> ShuttingDown).
Proof.
  intros b items. induction items as [|[c r] items [IH1 IH2]]; simpl.
  - split; [reflexivity | discriminate].
  - destruct b; simpl.
    + destruct (history_items tai_of_reception triggered take_cond
                  DDS_READ_QUEUE_LEN c r) as [e | batch]; simpl.
      * split; [reflexivity | discriminate].
      * destruct (history_loop' true items) as [e rest]. simpl in *.
        split; [rewrite IH1; reflexivity | exact IH2].
    + split; [reflexivity | discriminate].
Qed.

(** The ways [start] can end on a session on which it was not called. *)
Lemma start_cases : forall self : SalInfo P T,
  start_called self = false ->
  (isopen self = false /\ start' self = (None, set_start_called true self)) \/
  (isopen self = true /\
   exists readers,
     map fst readers = map fst (_readers self) /\
     ((start' self =
         (None,
          set_start_task Result
            (set_read_loop_task Pending
               (set_readers readers (set_start_called true self))))) \/
      (exists e,
         start' self =
           (Some e,
            set_start_task (Exception e)
              (set_readers readers (set_start_called true self)))))).
Proof.
  intros self Hs. unfold start. rewrite Hs.
  assert (Ho : isopen (set_start_called true self) = isopen self)
    by (destruct self; reflexivity).
  assert (Hr : _readers (set_start_called true self) = _readers self)
    by (destruct self; reflexivity).
  rewrite Ho, Hr. destruct (isopen self) eqn:E; simpl negb; cbv iota.
  - right. split; [reflexivity|].
    destruct (history_loop_keys true (_readers self)) as [K1 K2].
    destruct (history_loop' true (_readers self)) as [e readers].
    simpl in K1, K2. exists readers. split; [exact K1|].
    destruct e as [| |e].
    + left. reflexivity.
    + exfalso. exact (K2 eq_refl eq_refl).
    + right. exists e. reflexivity.
  - left. split; reflexivity.
Qed.

(** After [start] on a session on which it had not been called
    ([start_task] pending), [assert_started] passes exactly when the session
    was open and [start] returned. On a session that is not open [start]
    returns without an exception and without starting: [start_task] stays
    pending and the read loop is not launched. When [start] raises,
    [start_task] holds the exception and the read loop is not launched. *)
Theorem start_then_assert_started :
  forall self : SalInfo P T,
    start_called self = false -> start_task self = Pending ->
    let r := start' self in
    (assert_started (snd r) = inr tt <-> isopen self = true /\ fst r = None) /\
    (isopen self = true -> fst r = None ->
       start_task (snd r) = Result /\ _read_loop_task (snd r) = Pending) /\
    (isopen self = false ->
       fst r = None /\ start_task (snd r) = Pending /\
       _read_loop_task (snd r) = _read_loop_task self) /\
    (forall e, fst r = Some e ->
       start_task (snd r) = Exception e /\
       _read_loop_task (snd r) = _read_loop_task self).
Proof.
  intros self Hs Hp r. subst r.
  destruct (start_cases self Hs)
    as [[Ho E] | [Ho [readers [_ [E | [e E]]]]]]; rewrite E; clear E;
    unfold assert_started, started; destruct self; simpl in *; subst;
    simpl; repeat split; intros; try discriminate; try tauto;
    try (destruct H; discriminate); try congruence.
Qed.

(** Once [start] has been called the registry of readers is frozen and a
    second [start] is refused: whatever the first call did, [start] then
    raises RuntimeError and leaves the session as it is, and [add_reader]
    raises RuntimeError. *)
Theorem start_freezes_registry :
  forall (self : SalInfo P T) (read_condition : nat) (topic : Reader P T)
         (waitset : WaitSet),
    let self1 := snd (start' self) in
    start_called self1 = true /\
    start' self1 = (Some (RuntimeError "Start already called"), self1) /\
    add_reader read_condition topic self1 waitset =
      inl (RuntimeError "Cannot add topics after the start called").
Proof.
  intros self read_condition topic waitset self1.
  assert (H : start_called self1 = true).
  { subst self1. destruct (start_called self) eqn:Hs.
    - unfold start. rewrite Hs. exact Hs.
    - destruct (start_cases self Hs)
        as [[Ho E] | [Ho [readers [_ [E | [e E]]]]]]; rewrite E;
        destruct self; reflexivity. }
  split; [exact H|]. split.
  - unfold start. rewrite H. reflexivity.
  - unfold add_reader. rewrite H. reflexivity.
Qed.

(** [start] never adds, drops or reorders readers, whether it returns or
    raises, and it leaves alone the table of running commands and their
    store, the writers, the open flag, the completion signal of [close] and
    the registration with the domain. *)
Theorem start_keeps_registry_and_commands :
  forall self : SalInfo P T,
    let self1 := snd (start' self) in
    map fst (_readers self1) = map fst (_readers self) /\
    _running_cmds self1 = _running_cmds self /\
    cmds self1 = cmds self /\
    _writers self1 = _writers self /\
    isopen self1 = isopen self /\
    done_task self1 = done_task self /\
    registered self1 = registered self.
Proof.
  intros self self1. subst self1. destruct (start_called self) eqn:Hs.
  - unfold start. rewrite Hs. simpl. repeat split.
  - destruct (start_cases self Hs)
      as [[Ho E] | [Ho [readers [K [E | [e E]]]]]]; rewrite E; clear E;
      destruct self; simpl in *; repeat split; assumption.
Qed.

End StartFacts.

(** ** A round of the read loop *)

Lemma dict_get_some_has : forall (V : Type) (k : nat) (d : dict nat V) v,
  dict_get Nat.eqb k d = Some v -> dict_has Nat.eqb k d = true.
Proof.
  intros V k d v H. destruct (dict_has Nat.eqb k d) eqn:E; [reflexivity|].
  apply dict_has_get in E. congruence.
Qed.

(** A round of the read loop for one condition changes at most the reader
    registered for that condition: the conditions and their order, the
    other readers and everything else in the session stay. A condition that
    no reader is registered for (such as the guard condition) and the
    condition of a closed reader leave the session as it is, without a call
    of the transport. *)
Theorem read_round_touches_one_reader :
  forall (tai_of_reception : Z -> T)
         (take_cond : nat -> Z -> M (list (SampleData P T * SampleInfo)))
         (condition : nat) (self self' : SalInfo P T),
    read_condition_round tai_of_reception take_cond condition self = inr self' ->
    map fst (_readers self') = map fst (_readers self) /\
    (forall c, c <> condition ->
       dict_get Nat.eqb c (_readers self') = dict_get Nat.eqb c (_readers self)) /\
    set_readers (_readers self) self' = self /\
    (dict_get Nat.eqb condition (_readers self) = None \/
     (exists reader, dict_get Nat.eqb condition (_readers self) = Some reader /\
                     r_isopen reader = false) ->
     self' = self).
Proof.
  intros tai_of_reception take_cond condition self self'.
  unfold read_condition_round.
  assert (Hsame : map fst (_readers self) = map fst (_readers self) /\
                  (forall c, c <> condition ->
                     dict_get Nat.eqb c (_readers self) =
                     dict_get Nat.eqb c (_readers self)) /\
                  set_readers (_readers self) self = self)
    by (repeat split; apply set_readers_same).
  destruct (dict_get Nat.eqb condition (_readers self)) as [reader|] eqn:Hget.
  - destruct (r_isopen reader) eqn:Ho; simpl negb; cbv iota.
    + destruct (take_cond condition (Z.of_nat (maxlen reader))) as [e | data_list];
        simpl; [discriminate|].
      destruct (truthy (valid_samples tai_of_reception data_list)).
      * intro H. injection H as <-.
        assert (Hr : forall d, _readers (set_readers d self) = d)
          by (intro d; destruct self; reflexivity).
        rewrite Hr. split; [|split; [|split]].
        -- apply dict_set_keys. exact (dict_get_some_has _ _ _ _ Hget).
        -- intros c Hc. apply dict_get_set_other. exact Hc.
        -- destruct self; reflexivity.
        -- intros [H | [r [H Hc]]]; [discriminate H|]. congruence.
      * intro H. injection H as <-.
        destruct Hsame as [H1 [H2 H3]]. repeat split; auto.
    + intro H. injection H as <-.
      destruct Hsame as [H1 [H2 H3]]. repeat split; auto.
  - intro H. injection H as <-.
    destruct Hsame as [H1 [H2 H3]]. repeat split; auto.
Qed.

(** ** [makeAckCmd] *)

(** An acknowledgement that [makeAckCmd] returns never carries a result of
    more than [MAX_RESULT_LEN] characters: its result starts the result
    given, and is the result given unless truncation was asked for; the
    sequence number, the code and the error are the ones given and the
    identity is empty. *)
Theorem makeAckCmd_never_exceeds_bound :
  forall (self : SalInfo P T) (seq : Z) (a : SalRetCode) (err : Z) (res : str)
         (trunc : bool) (made : AckCmd),
    makeAckCmd self seq a err res trunc = inr made ->
    len (result made) <= MAX_RESULT_LEN /\
    (exists rest, res = result made ++ rest) /\
    (trunc = false -> result made = res) /\
    private_seqNum made = seq /\ ack made = a /\ error made = err /\
    identity made = [].
Proof.
  intros self seq a err res trunc made. unfold makeAckCmd, AckCmdType.
  unfold MAX_RESULT_LEN.
  destruct (len (command_names self) =? 0).
  - destruct (len res >? 256); [destruct trunc|]; discriminate.
  - destruct (Z.gtb_spec (len res) 256) as [Hlong | Hshort].
    + destruct trunc; simpl; [|discriminate].
      intro H. injection H as <-. simpl. unfold slice_to. repeat split.
      * unfold len in *. rewrite length_firstn. lia.
      * exists (skipn (Z.to_nat 256) res). symmetry. apply firstn_skipn.
      * discriminate.
    + simpl. intro H. injection H as <-. simpl. repeat split.
      * exact Hshort.
      * exists []. symmetry. apply app_nil_r.
Qed.

(** ** [_ackcmd_callback]: what it never does *)

Lemma dict_del_shorter : forall (V : Type) (k : Z) (d : dict Z V),
  (List.length (dict_del Z.eqb k d) <= List.length d)%nat.
Proof. intros V k d. unfold dict_del. apply filter_length_le. Qed.

Lemma dict_get_del_some : forall (V : Type) (k k0 : Z) (d : dict Z V) v,
  dict_get Z.eqb k0 (dict_del Z.eqb k d) = Some v ->
  dict_get Z.eqb k0 d = Some v.
Proof.
  intros V k k0 d v H. destruct (Z.eq_dec k0 k) as [-> | Hne].
  - rewrite dict_get_del_same in H. discriminate H.
  - rewrite dict_get_del_other in H by exact Hne. exact H.
Qed.

(** The ways the callback can end. *)
Lemma ackcmd_callback_cases : forall (data : AckCmd) (self : SalInfo P T),
  _ackcmd_callback data self = self \/
  exists a,
    dict_get Z.eqb (private_seqNum data) (_running_cmds self) = Some a /\
    truthy (identity data) && negb (str_eqb (identity data) (identity_ self))
      = false /\
    ((terminal (ack data) = false /\
      _ackcmd_callback data self =
        set_cmds (store a (mkCommandInfo (seq_num (cmds self a)) (Some data))
                        (cmds self)) self) \/
     (terminal (ack data) = true /\
      _ackcmd_callback data self =
        set_running_cmds
          (dict_del Z.eqb (private_seqNum data) (_running_cmds self))
          (set_cmds (store a (mkCommandInfo (seq_num (cmds self a)) (Some data))
                           (cmds self)) self))).
Proof.
  intros data self. unfold _ackcmd_callback.
  destruct (negb (truthy (_running_cmds self))); [left; reflexivity|].
  destruct (truthy (identity data) &&
            negb (str_eqb (identity data) (identity_ self))) eqn:Hid;
    [left; reflexivity|].
  destruct (dict_get Z.eqb (private_seqNum data) (_running_cmds self))
    as [a|] eqn:Hget; [|left; reflexivity].
  right. exists a. split; [reflexivity|]. split; [reflexivity|].
  unfold add_ackcmd.
  destruct (terminal (ack data)).
  - right. split; [reflexivity|]. destruct self; reflexivity.
  - left. split; reflexivity.
Qed.

(** The callback never adds a command to the table of running commands:
    the table stays, or loses the entries of the sequence number
    acknowledged; every lookup that succeeds afterwards succeeded before
    with the same answer. It changes at most the [CommandInfo] registered
    for that sequence number, and nothing else in the session. *)
Theorem ackcmd_callback_never_adds :
  forall (data : AckCmd) (self : SalInfo P T),
    let self' := _ackcmd_callback data self in
    (_running_cmds self' = _running_cmds self \/
     _running_cmds self' =
       dict_del Z.eqb (private_seqNum data) (_running_cmds self)) /\
    (List.length (_running_cmds self') <= List.length (_running_cmds self))%nat /\
    (forall k a, dict_get Z.eqb k (_running_cmds self') = Some a ->
                 dict_get Z.eqb k (_running_cmds self) = Some a) /\
    (forall b, cmds self' b <> cmds self b ->
       dict_get Z.eqb (private_seqNum data) (_running_cmds self) = Some b) /\
    set_cmds (cmds self) (set_running_cmds (_running_cmds self) self') = self.
Proof.
  intros data self self'. subst self'.
  destruct (ackcmd_callback_cases data self)
    as [E | [a [Hget [_ [[Ht E] | [Ht E]]]]]]; rewrite E; clear E.
  - split; [left; reflexivity|]. split; [lia|]. split; [auto|].
    split; [intros b H; contradiction|]. destruct self; reflexivity.
  - assert (Hr : _running_cmds
                   (set_cmds (store a (mkCommandInfo (seq_num (cmds self a))
                                                     (Some data)) (cmds self)) self)
                 = _running_cmds self) by (destruct self; reflexivity).
    rewrite Hr. split; [left; reflexivity|]. split; [lia|]. split; [auto|].
    split; [|destruct self; reflexivity].
    intros b Hb. destruct (Nat.eq_dec b a) as [-> | Hne]; [exact Hget|].
    exfalso. apply Hb. destruct self; simpl. apply store_other. exact Hne.
  - assert (Hr : forall d h, _running_cmds (set_running_cmds d (set_cmds h self)) = d)
      by (intros; destruct self; reflexivity).
    rewrite Hr. split; [right; reflexivity|].
    split; [apply dict_del_shorter|].
    split; [intros k b; apply dict_get_del_some|].
    split; [|destruct self; reflexivity].
    intros b Hb. destruct (Nat.eq_dec b a) as [-> | Hne]; [exact Hget|].
    exfalso. apply Hb. destruct self; simpl. apply store_other. exact Hne.
Qed.

(** An acknowledgement that arrives twice does no more than one that
    arrives once: the second delivery leaves the table of running commands,
    every [CommandInfo] and the rest of the session as the first one left
    them. *)
Theorem ackcmd_callback_duplicate_is_harmless :
  forall (data : AckCmd) (self : SalInfo P T),
    let once := _ackcmd_callback data self in
    let twice := _ackcmd_callback data once in
    _running_cmds twice = _running_cmds once /\
    (forall b, cmds twice b = cmds once b) /\
    set_cmds (cmds once) twice = once.
Proof.
  intros data self once twice. subst twice once.
  destruct (ackcmd_callback_cases data self)
    as [E | [a [Hget [Hid [[Ht E] | [Ht E]]]]]]; rewrite E.
  - rewrite E. repeat split. destruct self; reflexivity.
  - (* recorded, not terminal: recorded again, with the same content *)
    clear E. pose proof (dict_get_some_truthy _ _ _ _ Hget) as Htr.
    unfold _ackcmd_callback, add_ackcmd. destruct self; simpl in *.
    rewrite Htr, Hid, Hget, Ht. simpl. rewrite store_same. simpl.
    split; [reflexivity|]. split; [|reflexivity].
    intro b. destruct (Nat.eq_dec b a) as [-> | Hne].
    + rewrite !store_same. reflexivity.
    + rewrite !store_other by exact Hne. reflexivity.
  - (* terminal: the entry is gone, the second delivery finds nothing *)
    clear E. unfold _ackcmd_callback. destruct self; simpl in *.
    destruct (negb (truthy (dict_del Z.eqb (private_seqNum data) _running_cmds0)));
      [repeat split|].
    rewrite Hid, dict_get_del_same. repeat split.
Qed.

(** ** [close]: the topics, and a topic that fails to close *)

Section CloseMore.

Variable reader_close : Reader P T -> option exn.
Variable writer_close : Writer -> option exn.

Local Abbreviation close' := (close reader_close writer_close).
Local Abbreviation close_step' := (close_step reader_close writer_close).
Local Abbreviation step' := (step reader_close writer_close).




(** No piece of [close] but the last one touches the running commands,
    their store or the registration with the domain. *)
Lemma close_finally_frame : forall self : SalInfo P T,
  _running_cmds (close_finally self) = _running_cmds self /\
  cmds (close_finally self) = cmds self /\
  registered (close_finally self) = registered self.
Proof.
  intros []. unfold close_finally. simpl. destruct done_task0; repeat split.
Qed.

Lemma close_from_writers_frame : forall self : SalInfo P T,
  fst (close_from_writers self) = Finished None \/
  (_running_cmds (snd (close_from_writers self)) = _running_cmds self /\
   cmds (snd (close_from_writers self)) = cmds self /\
   registered (snd (close_from_writers self)) = registered self).
Proof.
  intros self. unfold close_from_writers.
  destruct (list_pop (_writers self)) as [[w rest]|].
  - right. destruct self; repeat split.
  - left. reflexivity.
Qed.

Lemma close_from_readers_frame : forall self : SalInfo P T,
  fst (close_from_readers self) = Finished None \/
  (_running_cmds (snd (close_from_readers self)) = _running_cmds self /\
   cmds (snd (close_from_readers self)) = cmds self /\
   registered (snd (close_from_readers self)) = registered self).
Proof.
  intros self. unfold close_from_readers.
  destruct (dict_popitem (_readers self)) as [[[c r] rest]|].
  - right. destruct self; repeat split.
  - apply close_from_writers_frame.
Qed.

Lemma close_step_frame : forall pc (self : SalInfo P T),
  fst (close_step' pc self) = Finished None \/
  (_running_cmds (snd (close_step' pc self)) = _running_cmds self /\
   cmds (snd (close_step' pc self)) = cmds self /\
   registered (snd (close_step' pc self)) = registered self).
Proof.
  intros pc self. destruct pc as [| |r|w| |e0]; unfold close_step.
  - destruct (isopen self); simpl negb; cbv iota.
    + right. destruct self; repeat split.
    + right. destruct (await (done_task self)); repeat split.
  - set (s2 := set_read_loop_task _ _).
    destruct (close_from_readers_frame s2) as [H | [H1 [H2 H3]]];
      [left; exact H|].
    right. rewrite H1, H2, H3. destruct self; repeat split.
  - destruct (reader_close r).
    + right. apply close_finally_frame.
    + apply close_from_readers_frame.
  - destruct (writer_close w).
    + right. apply close_finally_frame.
    + apply close_from_writers_frame.
  - right. destruct (await (done_task self)); repeat split.
  - right. repeat split.
Qed.

Lemma close_iter_frame : forall n (self0 : SalInfo P T),
  fst (Nat.iter n step' (Entry, self0)) = Finished None \/
  (_running_cmds (snd (Nat.iter n step' (Entry, self0))) = _running_cmds self0 /\
   cmds (snd (Nat.iter n step' (Entry, self0))) = cmds self0 /\
   registered (snd (Nat.iter n step' (Entry, self0))) = registered self0).
Proof.
  intros n self0. induction n as [|n IH].
  - right. repeat split.
  - simpl. destruct (Nat.iter n step' (Entry, self0)) as [pc s].
    unfold step. simpl fst in *. simpl snd in *.
    destruct IH as [-> | [H1 [H2 H3]]].
    + left. reflexivity.
    + destruct (close_step_frame pc s) as [H | [K1 [K2 K3]]]; [left; exact H|].
      right. rewrite K1, K2, K3. auto.
Qed.

(** When a topic fails to close, [close] ends with the exception of that
    topic and the running commands are not aborted: the table and the
    store are as they were and the session stays registered with the
    domain. The session is marked as not open and the completion signal is
    set all the same, so that a later call of [close] returns at once and
    changes nothing: the commands stay unresolved. *)
Theorem close_failure_leaves_commands :
  forall (self after : SalInfo P T) (e : exn),
    isopen self = true ->
    close' self = (Finished (Some e), after) ->
    ((exists c r, In (c, r) (_readers self) /\ reader_close r = Some e) \/
     (exists w, In w (_writers self) /\ writer_close w = Some e)) /\
    _running_cmds after = _running_cmds self /\
    cmds after = cmds self /\
    registered after = registered self /\
    isopen after = false /\
    done (done_task after) = true /\
    (exists e', close' after = (Finished e', after)).
Proof.
  intros self after e Hopen Hrun.
  assert (Ho : isopen after = false).
  { pose proof (iter_not_open P T reader_close writer_close
                  (2 + List.length (_readers self) + List.length (_writers self))
                  self Hopen) as H.
    unfold close in Hrun. simpl Nat.add in *. rewrite Hrun in H. exact H. }
  assert (Hd : done (done_task after) = true).
  { unfold close in Hrun.
    exact (iter_finished_done P T reader_close writer_close _ self _ after
             Hrun (Some e) eq_refl). }
  split; [|split; [|split; [|split; [|split; [exact Ho | split; [exact Hd|]]]]]].
  - destruct (close_runs P T reader_close writer_close self Hopen)
      as [[e0 [s' [H Hwho]]] | H]; rewrite H in Hrun.
    + injection Hrun as -> _. exact Hwho.
    + discriminate Hrun.
  - pose proof (close_iter_frame
                  (3 + List.length (_readers self) + List.length (_writers self))
                  self) as H.
    unfold close in Hrun. rewrite Hrun in H.
    destruct H as [H | [H _]]; [discriminate H | exact H].
  - pose proof (close_iter_frame
                  (3 + List.length (_readers self) + List.length (_writers self))
                  self) as H.
    unfold close in Hrun. rewrite Hrun in H.
    destruct H as [H | [_ [H _]]]; [discriminate H | exact H].
  - pose proof (close_iter_frame
                  (3 + List.length (_readers self) + List.length (_writers self))
                  self) as H.
    unfold close in Hrun. rewrite Hrun in H.
    destruct H as [H | [_ [_ H]]]; [discriminate H | exact H].
  - destruct (close_again P T reader_close writer_close after Ho Hd)
      as [e' [H _]].
    exists e'. exact H.
Qed.

End CloseMore.

End RegistryFacts.

(** ** The sessions of the examples *)


(** [start] on the example session; the transport always has data. *)
Lemma start_then_assert_started_witness :
  assert_started
    (snd (start (fun _ : Z => tt) (fun _ => true) demo_take 100 demo_session))
  = inr tt.
Proof.
  apply (proj1 (start_then_assert_started Z unit (fun _ : Z => tt)
                  (fun _ => true) demo_take 100 demo_session eq_refl eq_refl)).
  split; reflexivity.
Defined.

(** A round of the read loop for the first reader of the example session. *)
Lemma read_round_touches_one_reader_witness :
  match read_condition_round (fun _ : Z => tt)
          (fun c n => demo_take c 0%nat n) 0%nat demo_session with
  | inr self' => map fst (_readers self') = [0%nat; 1%nat]
  | inl _ => False
  end.
Proof.
  exact (proj1 (read_round_touches_one_reader Z unit (fun _ : Z => tt)
                  (fun c n => demo_take c 0%nat n) 0%nat demo_session _ eq_refl)).
Defined.

(** A result of 300 characters, truncated. *)
Lemma makeAckCmd_never_exceeds_bound_witness :
  len (result (mkAckCmd 7 CMD_FAILED 1 (repeat "x"%char 256) [])) <= MAX_RESULT_LEN.
Proof.
  exact (proj1 (makeAckCmd_never_exceeds_bound Z unit demo_session 7 CMD_FAILED 1
                  (repeat "x"%char 300) true
                  (mkAckCmd 7 CMD_FAILED 1 (repeat "x"%char 256) []) eq_refl)).
Defined.


(** [close] on the example session, with readers that fail to close. *)
Lemma close_failure_leaves_commands_witness :
  _running_cmds
    (snd (close (fun _ : Reader Z unit => Some (TopicError "close failed"))
                (fun _ => None) demo_session))
  = [(7, 0%nat); (8, 1%nat)].
Proof.
  exact (proj1 (proj2
           (close_failure_leaves_commands Z unit
              (fun _ => Some (TopicError "close failed")) (fun _ => None)
              demo_session
              (snd (close (fun _ : Reader Z unit => Some (TopicError "close failed"))
                          (fun _ => None) demo_session))
              (TopicError "close failed")
              eq_refl ltac:(vm_compute; reflexivity)))).
Defined.

End SessionFacts.

(* ================================================================== *)
(** * More about the component state machine                            *)
(* ================================================================== *)

Module CscRunFacts.

Import BaseCsc BaseCscFacts CscRun.

Section RunFacts.

Variables U D : Type.
Variables begin_ end_ : CmdName -> Hook U D.

Hypothesis begin_keeps : forall name, keeps_state (begin_ name).
Hypothesis end_keeps : forall name, keeps_state (end_ name).

(** What a command does to the state machinery, with hooks that leave it
    alone: nothing at all, or the change of state with its event. *)
Lemma command_effect : forall name id_data (self : Csc U),
  let self' := self_of (do_ begin_ end_ name id_data self) in
  (state self' = state self /\
   summary_state self' = summary_state self /\
   evt_summaryState self' = evt_summaryState self /\
   die_scheduled self' = die_scheduled self) \/
  (In (state self) (allowed_curr_states name) /\
   state self' = new_state name /\
   summary_state self' = State_value (new_state name) /\
   evt_summaryState self' =
     evt_summaryState self ++ [State_value (new_state name)] /\
   die_scheduled self' =
     match name with exitControl => true | _ => die_scheduled self end).
Proof.
  intros name id_data self self'. subst self'.
  rewrite (do_unfold U D begin_ end_). unfold _do_change_state.
  destruct (State_in (state self) (allowed_curr_states name)) eqn:Hin;
    simpl negb; cbv iota; [|left; simpl; auto].
  apply State_in_In in Hin.
  destruct (begin_keeps name id_data self) as [B1 [B2 [B3 B4]]].
  destruct (begin_ name id_data self) as [s1 | e s1]; simpl in B1, B2, B3, B4;
    [|left; simpl; auto].
  destruct (end_keeps name id_data (set_state s1 (new_state name)))
    as [E1 [E2 [E3 E4]]].
  destruct (end_ name id_data (set_state s1 (new_state name))) as [s2 | e s2];
    simpl in E1, E2, E3, E4.
  - right. split; [exact Hin|].
    destruct name; simpl; rewrite E1, E3, ?E4, B3, ?B4; auto.
  - left. simpl. rewrite E2, E3, E4. simpl. auto.
Qed.

(** Along every sequence of commands and faults on a new component, with
    hooks that leave the state machinery alone, the last summary-state
    event published is the state the component is in, and so is the
    summary state; as long as nothing has been published the component is
    in STANDBY. Commands that fail and post-hooks that raise do not break
    this. *)
Theorem published_state_is_current :
  forall (ops : list (Op D)) (u : U),
    let self := run begin_ end_ ops (new_csc u) in
    (evt_summaryState self = [] /\ state self = STANDBY) \/
    (exists older,
       evt_summaryState self = older ++ [State_value (state self)] /\
       summary_state self = State_value (state self)).
Proof.
  intros ops u.
  assert (H : forall (start : Csc U),
             ((evt_summaryState start = [] /\ state start = STANDBY) \/
              (exists older,
                 evt_summaryState start = older ++ [State_value (state start)] /\
                 summary_state start = State_value (state start))) ->
             let self := run begin_ end_ ops start in
             (evt_summaryState self = [] /\ state self = STANDBY) \/
             (exists older,
                evt_summaryState self = older ++ [State_value (state self)] /\
                summary_state self = State_value (state self))).
  { induction ops as [|op ops IH]; intros start Hinv; [exact Hinv|].
    simpl. apply IH. destruct op as [name id_data|]; simpl.
    - destruct (command_effect name id_data start)
        as [[H1 [H2 [H3 _]]] | [_ [H1 [H2 [H3 _]]]]].
      + rewrite H1, H2, H3. exact Hinv.
      + right. exists (evt_summaryState start). rewrite H1, H2, H3. auto.
    - right. exists (evt_summaryState start). split; reflexivity. }
  apply H. left. split; reflexivity.
Qed.

(** Along every such sequence the component is never in OFFLINE without
    the shutdown of the event loop being scheduled: only [exitControl]
    leads to OFFLINE, and it schedules the shutdown. *)
Theorem offline_means_shutdown_scheduled :
  forall (ops : list (Op D)) (u : U),
    let self := run begin_ end_ ops (new_csc u) in
    state self = OFFLINE -> die_scheduled self = true.
Proof.
  intros ops u.
  assert (H : forall (start : Csc U),
             (state start = OFFLINE -> die_scheduled start = true) ->
             let self := run begin_ end_ ops start in
             state self = OFFLINE -> die_scheduled self = true).
  { induction ops as [|op ops IH]; intros start Hinv; [exact Hinv|].
    simpl. apply IH. destruct op as [name id_data|]; simpl.
    - destruct (command_effect name id_data start)
        as [[H1 [_ [_ H4]]] | [_ [H1 [_ [_ H4]]]]].
      + rewrite H1, H4. exact Hinv.
      + rewrite H1, H4. destruct name; simpl; intro E; try discriminate E.
        reflexivity.
    - intro E. discriminate E. }
  apply H. intro E. discriminate E.
Qed.

End RunFacts.

Lemma default_hooks_keep : forall (U D : Type) name,
  keeps_state (@begin_default U D name) /\ keeps_state (@end_default U D name).
Proof. intros U D name. split; intros id_data self; repeat split. Qed.

(** The standard cycle with the hooks of the base class, then a command that
    is refused. *)
Lemma published_state_is_current_witness :
  evt_summaryState
    (run (@begin_default unit unit) (@end_default unit unit)
         [Command start no_data; Command enable no_data;
          Command disable no_data; Command standby no_data;
          Command enable no_data]
         (new_csc tt))
  = [1; 2; 1; 5]%Z.
Proof.
  destruct (@published_state_is_current unit unit
              (@begin_default unit unit) (@end_default unit unit)
              (fun n => proj1 (default_hooks_keep unit unit n))
              (fun n => proj2 (default_hooks_keep unit unit n))
              [Command start no_data; Command enable no_data;
               Command disable no_data; Command standby no_data;
               Command enable no_data] tt)
    as [[H _] | [older [H _]]].
  - discriminate H.
  - reflexivity.
Defined.

(** [exitControl] on a new component. *)
Lemma offline_means_shutdown_scheduled_witness :
  die_scheduled
    (run (@begin_default unit unit) (@end_default unit unit)
         [Command exitControl no_data] (new_csc tt)) = true.
Proof.
  exact (@offline_means_shutdown_scheduled unit unit
           (@begin_default unit unit) (@end_default unit unit)
           (fun n => proj1 (default_hooks_keep unit unit n))
           (fun n => proj2 (default_hooks_keep unit unit n))
           [Command exitControl no_data] tt eq_refl).
Defined.

End CscRunFacts.

(* ================================================================== *)
(** * Commands and their methods: the checks                            *)
(* ================================================================== *)

Module MethodsFacts.

Import Base SalInfo SalInfoFacts Methods.

(** ** Sets of names *)

Lemma mem_In : forall x l, mem x l = true <-> In x l.
Proof.
  intros x l. unfold mem. rewrite existsb_exists. split.
  - intros [y [Hy E]]. apply str_eqb_eq in E. subst y. exact Hy.
  - intro H. exists x. split; [exact H | apply str_eqb_eq; reflexivity].
Qed.

Lemma mem_false : forall x l, mem x l = false <-> ~ In x l.
Proof.
  intros x l. rewrite <- mem_In. destruct (mem x l); split; intro H.
  - discriminate H.
  - exfalso. apply H. reflexivity.
  - intro E. discriminate E.
  - reflexivity.
Qed.

Lemma set_of_In : forall x l, In x (set_of l) <-> In x l.
Proof. intros x l. unfold set_of. apply nodup_In. Qed.

Lemma set_ne_false : forall a b,
  set_ne a b = false <-> (forall x, In x a <-> In x b).
Proof.
  intros a b. unfold set_ne. rewrite negb_false_iff, andb_true_iff,
    !forallb_forall. split.
  - intros [H1 H2] x. split; intro H.
    + apply mem_In. apply H1. exact H.
    + apply mem_In. apply H2. exact H.
  - intro H. split; intros x Hx; apply mem_In; apply H; exact Hx.
Qed.

Lemma set_diff_In : forall x a b,
  In x (set_diff a b) <-> In x a /\ ~ In x b.
Proof.
  intros x a b. unfold set_diff. rewrite filter_In, set_of_In,
    negb_true_iff, mem_false. tauto.
Qed.

Lemma nil_iff_no_element : forall (l : list str),
  l = [] <-> (forall x, ~ In x l).
Proof.
  intros l. split.
  - intros -> x H. exact H.
  - intro H. destruct l as [|x l]; [reflexivity|].
    exfalso. apply (H x). left. reflexivity.
Qed.

Lemma insert_not_nil : forall x l, insert x l <> [].
Proof. intros x [|y l]; simpl; [discriminate|]. destruct (str_leb x y); discriminate. Qed.

Lemma sorted_nil : forall l, sorted l = [] <-> l = [].
Proof.
  intros l. split.
  - destruct l as [|x l]; [reflexivity|]. simpl. intro H.
    exfalso. exact (insert_not_nil _ _ H).
  - intros ->. reflexivity.
Qed.

Lemma truthy_true : forall (A : Type) (l : list A), truthy l = true <-> l <> [].
Proof.
  intros A [|x l]; simpl; split; intro H.
  - discriminate H.
  - exfalso. apply H. reflexivity.
  - discriminate.
  - reflexivity.
Qed.

(** ** Names of methods *)

Lemma startswith_do : forall name,
  startswith (chars "do_") name = true <-> name = chars "do_" ++ skipn 3 name.
Proof.
  intros name. split.
  - destruct name as [|a [|b [|c rest]]]; simpl; try discriminate;
      try (rewrite ?andb_false_r; discriminate).
    intro H. apply andb_true_iff in H as [Ha H].
    apply andb_true_iff in H as [Hb H]. apply andb_true_iff in H as [Hc _].
    apply Ascii.eqb_eq in Ha, Hb, Hc. subst. reflexivity.
  - intros ->. reflexivity.
Qed.

(** A command has a [do_] method when the name of the method is an
    attribute of the object. *)
Lemma supported_In : forall dir_self cmd,
  In cmd (supported_command_names dir_self) <-> In (chars "do_" ++ cmd) dir_self.
Proof.
  intros dir_self cmd. unfold supported_command_names.
  rewrite in_map_iff. split.
  - intros [name [Hskip Hin]]. apply filter_In in Hin as [Hin Hstart].
    apply startswith_do in Hstart. rewrite Hskip in Hstart. subst name.
    exact Hin.
  - intro Hin. exists (chars "do_" ++ cmd). split; [reflexivity|].
    apply filter_In. split; [exact Hin | reflexivity].
Qed.

(** ** The check of [BaseCsc] *)

(** [BaseCsc._assert_do_methods_present] returns exactly when the commands
    and the [do_] methods correspond one to one as sets, whatever the order
    and the repetitions in the list of commands: every command has its
    method and every [do_] method names a command. Otherwise it raises
    TypeError. *)
Theorem assert_do_methods_present_iff :
  forall dir_self command_names : list str,
    (_assert_do_methods_present dir_self command_names = inr tt <->
     (forall cmd, In cmd command_names <-> In (chars "do_" ++ cmd) dir_self)) /\
    (_assert_do_methods_present dir_self command_names = inr tt \/
     exists msg,
       _assert_do_methods_present dir_self command_names = inl (TypeError msg)).
Proof.
  intros dir_self command_names. unfold _assert_do_methods_present.
  destruct (set_ne command_names (supported_command_names dir_self)) eqn:E.
  - split; [|right; eauto]. split; [discriminate|].
    intro H. exfalso.
    assert (F : set_ne command_names (supported_command_names dir_self) = false).
    { apply set_ne_false. intro x. rewrite supported_In. apply H. }
    congruence.
  - split; [|left; reflexivity]. split; [|reflexivity].
    intros _ cmd. rewrite <- supported_In.
    revert cmd. apply set_ne_false. exact E.
Qed.

(** ** The check and the callbacks of [Controller] *)

Lemma not_nil_element : forall (l : list str), l <> [] -> exists x, In x l.
Proof.
  intros [|x l] H; [contradiction H; reflexivity|]. exists x. left. reflexivity.
Qed.

(** What the check of [Controller] asks for. *)
Local Abbreviation methods_fit dir_self command_names :=
  ((forall cmd, In (chars "do_" ++ cmd) dir_self -> In cmd command_names) /\
   (forall cmd, In cmd command_names ->
      In (chars "do_" ++ cmd) dir_self \/ In cmd OPTIONAL_COMMAND_NAMES)).

(** [Controller._assert_do_methods_present] returns exactly when every
    [do_] method names a command and every command without a [do_] method
    is one of the optional commands. Otherwise it raises TypeError. *)
Theorem controller_assert_do_methods_present_iff :
  forall dir_self command_names : list str,
    (controller_assert_do_methods_present dir_self command_names = inr tt <->
     methods_fit dir_self command_names) /\
    (controller_assert_do_methods_present dir_self command_names = inr tt \/
     exists msg,
       controller_assert_do_methods_present dir_self command_names =
       inl (TypeError msg)).
Proof.
  intros dir_self command_names. unfold controller_assert_do_methods_present.
  set (sup := supported_command_names dir_self).
  destruct (set_ne command_names sup) eqn:E.
  - set (U := set_diff (set_diff command_names sup) OPTIONAL_COMMAND_NAMES).
    set (X := sorted (set_diff sup command_names)).
    destruct (truthy U) eqn:Hu.
    + (* a command that is not optional lacks its method *)
      simpl app. destruct (truthy X); simpl; (split; [|right; eauto]);
        (split; [discriminate|]); intros [_ P2]; exfalso;
        apply truthy_true in Hu; destruct (not_nil_element U Hu) as [x Hx];
        apply set_diff_In in Hx as [Hx Hopt];
        apply set_diff_In in Hx as [Hc Hs];
        (destruct (P2 x Hc) as [H | H];
         [apply Hs; apply supported_In; exact H | exact (Hopt H)]).
    + destruct (truthy X) eqn:Hx.
      * (* a method names no command *)
        simpl. split; [|right; eauto]. split; [discriminate|].
        intros [P1 _]. exfalso. apply truthy_true in Hx.
        assert (Hd : set_diff sup command_names <> []).
        { intro H. apply Hx. unfold X. rewrite H. reflexivity. }
        destruct (not_nil_element _ Hd) as [x Hin].
        apply set_diff_In in Hin as [Hs Hc]. apply Hc. apply P1.
        apply supported_In. exact Hs.
      * (* the sets differ by optional commands only *)
        simpl. split; [|left; reflexivity]. split; [|reflexivity].
        intros _. apply truthy_false in Hu, Hx.
        unfold X in Hx. apply (proj1 (sorted_nil _)) in Hx. split.
        -- intros cmd Hattr. apply supported_In in Hattr.
           destruct (mem cmd command_names) eqn:M; [apply mem_In; exact M|].
           exfalso. apply mem_false in M.
           apply (proj1 (nil_iff_no_element _) Hx cmd).
           apply set_diff_In. split; assumption.
        -- intros cmd Hc.
           destruct (mem cmd sup) eqn:M1;
             [left; apply supported_In; apply mem_In; exact M1|].
           destruct (mem cmd OPTIONAL_COMMAND_NAMES) eqn:M2;
             [right; exact (proj1 (mem_In _ _) M2)|].
           exfalso. apply mem_false in M1, M2.
           apply (proj1 (nil_iff_no_element _) Hu cmd).
           apply set_diff_In. split; [|exact M2].
           apply set_diff_In. split; assumption.
  - split; [|left; reflexivity]. split; [|reflexivity].
    intros _. pose proof (proj1 (set_ne_false _ _) E) as Heq. split.
    + intros cmd Hattr. apply Heq. apply supported_In. exact Hattr.
    + intros cmd Hc. left. apply supported_In. apply Heq. exact Hc.
Qed.



(** A component with the commands [start] and [abort] and the method
    [do_start] only: [abort] is optional and gets [reject_command]. *)
Example init_callbacks_demo :
  init_callbacks [chars "do_start"; chars "log"] [chars "start"; chars "abort"]
  = inr [(chars "start", DoMethod (chars "do_start"));
         (chars "abort", RejectCommand)] /\
  _assert_do_methods_present [chars "do_start"; chars "log"]
                             [chars "start"; chars "abort"]
  = inl (TypeError (chars "This class must add do_abort methods")) /\
  _assert_do_methods_present [chars "do_b"; chars "do_a"; chars "x"] []
  = inl (TypeError (chars "This class must remove do_a, do_b methods")).
Proof. vm_compute. repeat split. Qed.

End MethodsFacts.

(* ================================================================== *)
(** * Closing a controller: the completion signal                       *)
(* ================================================================== *)

Module ControllerCloseFacts.

Import SalInfo ControllerClose.

(** A call of [close] on a controller that is closed and whose completion
    signal is set returns and changes nothing, whatever it is given. *)
Lemma close_closed : forall call self,
  c_isopen self = false -> c_done_task self <> NotDone ->
  close call self = (Returned, self).
Proof.
  intros call self Ho Hd. unfold close. rewrite Ho. simpl.
  destruct (c_done_task self); [contradiction Hd; reflexivity | |]; reflexivity.
Qed.

Lemma close_all_closed : forall calls self,
  c_isopen self = false -> c_done_task self <> NotDone ->
  close_all calls self = (map (fun _ => Returned) calls, self).
Proof.
  intros calls. induction calls as [|call calls IH]; intros self Ho Hd; simpl.
  - reflexivity.
  - rewrite (close_closed call self Ho Hd), (IH self Ho Hd). reflexivity.
Qed.

(** The completion signal of a controller is set once, by the first call
    of [close]: to the exception given to that call, or to a result when
    none was given, also when [close_tasks] or [domain.close()] raise
    during the call. The first call raises only what [domain.close()]
    raises. Every later call returns without an exception and changes
    nothing, whatever exception it is given and even when the signal holds
    an exception. *)
Theorem controller_done_task_is_set_once :
  forall (first : CloseCall) (later : list CloseCall) (self : Controller),
    c_isopen self = true -> c_done_task self = NotDone ->
    let after := snd (close_all (first :: later) self) in
    fst (close_all (first :: later) self) =
      (match domain_close_raises first with
       | Some e => Raised e
       | None => Returned
       end) :: map (fun _ => Returned) later /\
    c_isopen after = false /\
    sal_log_handler after = false /\
    c_done_task after =
      match exception_arg first with
      | Some e => DoneException e
      | None => DoneResult
      end.
Proof.
  intros first later self Ho Hd after. subst after.
  cbn [close_all].
  destruct (close first self) as [e closing] eqn:Hc.
  assert (Hf : e = match domain_close_raises first with
                   | Some e => Raised e
                   | None => Returned
                   end /\
               c_isopen closing = false /\
               sal_log_handler closing = false /\
               c_done_task closing =
                 match exception_arg first with
                 | Some e => DoneException e
                 | None => DoneResult
                 end).
  { unfold close in Hc. rewrite Ho in Hc. cbn [negb] in Hc.
    unfold close_finally in Hc.
    destruct (close_tasks_raises first); cbn in Hc; rewrite Hd in Hc;
      destruct (domain_close_raises first); destruct (exception_arg first);
      inversion Hc; subst; cbn; repeat split. }
  destruct Hf as [F0 [F1 [F2 F3]]].
  assert (Hnd : c_done_task closing <> NotDone).
  { rewrite F3. destruct (exception_arg first); discriminate. }
  rewrite (close_all_closed later closing F1 Hnd). cbn [fst snd].
  rewrite F0.
  split; [reflexivity | split; [exact F1 | split; [exact F2 | exact F3]]].
Qed.

(** A first call with an exception, then two more. *)
Lemma controller_done_task_is_set_once_witness :
  c_done_task
    (snd (close_all
            [mkCloseCall (Some (TopicError "fatal")) true None;
             mkCloseCall None false None;
             mkCloseCall (Some ValueError) false (Some DDSException)]
            new_controller))
  = DoneException (TopicError "fatal").
Proof.
  exact (proj2 (proj2 (proj2
           (controller_done_task_is_set_once
              (mkCloseCall (Some (TopicError "fatal")) true None)
              [mkCloseCall None false None;
               mkCloseCall (Some ValueError) false (Some DDSException)]
              new_controller eq_refl eq_refl)))).
Defined.

End ControllerCloseFacts.
